(** * Web page analyzer: document traversal and link accessibility checker

    A shallow embedding of [pkg/analyzer] (the functions [AnalyzeURL],
    [fetchHTML], [traverseNode], [processLink], [isLoginForm],
    [checkFormFields], [detectHTMLVersion], [extractLinks],
    [checkLinksAccessibility] and [checkSingleLink]) together with the
    properties of the page-analysis engine that its specification states.

    Conventions.
    - A Go [string] is a [string] of bytes.
    - The counters of [Result] ([InternalLinks], [ExternalLinks],
      [InaccessibleLinks] and the values of [Headings]) are Go [int]s that
      start at zero and are only ever incremented, once per visited node or
      per probe result; they are modelled by [nat] (a tree of 2^63 nodes does
      not fit in memory).  Configuration values and status codes, which can
      be zero or negative, are [Z].
    - [Headings] is a Go [map[string]int]: a [gmap string nat]; reading an
      absent key yields Go's zero value, written [headingCount].
    - The Go standard library ([strings.ToLower], [strings.TrimSpace],
      [net/url], [html.Parse]) is an interface, [GoLib]; every general
      theorem holds for every implementation of it.  [Module Ascii7] gives
      one implementation to evaluate the definitions on concrete pages. *)

From Stdlib Require Import ZArith Lia Ascii String List Bool.
From stdpp Require Import base numbers option list gmap strings.

Set Warnings "-register-all".

(** ** Strings *)

Module Strings.

(** [strings.HasPrefix]. *)
Fixpoint HasPrefix (s prefix : string) : bool :=
  match prefix with
  | EmptyString => true
  | String p prefix' =>
      match s with
      | EmptyString => false
      | String c s' => Ascii.eqb c p && HasPrefix s' prefix'
      end
  end.

(** [strings.Contains]: [substr] occurs in [s] at some byte offset. *)
Fixpoint Contains (s substr : string) : bool :=
  HasPrefix s substr ||
  match s with
  | EmptyString => false
  | String _ s' => Contains s' substr
  end.

(** Bytes below 0x80. *)
Definition isASCIIByte (c : ascii) : bool := (nat_of_ascii c <? 128)%nat.

Fixpoint isASCII (s : string) : bool :=
  match s with
  | EmptyString => true
  | String c s' => isASCIIByte c && isASCII s'
  end.

(** The ASCII fast path of [strings.ToLower]: 'A'..'Z' become 'a'..'z'. *)
Definition lowerByte (c : ascii) : ascii :=
  let n := nat_of_ascii c in
  if ((65 <=? n) && (n <=? 90))%nat then ascii_of_nat (n + 32) else c.

Fixpoint asciiLower (s : string) : string :=
  match s with
  | EmptyString => EmptyString
  | String c s' => String (lowerByte c) (asciiLower s')
  end.

(** The ASCII white space of [unicode.IsSpace]: \t \n \v \f \r and space. *)
Definition isSpaceByte (c : ascii) : bool :=
  let n := nat_of_ascii c in
  ((9 <=? n) && (n <=? 13) || (n =? 32))%nat.

Fixpoint trimLeft (s : string) : string :=
  match s with
  | EmptyString => EmptyString
  | String c s' => if isSpaceByte c then trimLeft s' else s
  end.

Fixpoint trimRight (s : string) : string :=
  match s with
  | EmptyString => EmptyString
  | String c s' =>
      match trimRight s' with
      | EmptyString => if isSpaceByte c then EmptyString else String c EmptyString
      | t => String c t
      end
  end.

Definition asciiTrimSpace (s : string) : string := trimRight (trimLeft s).

End Strings.

Import Strings.

(** The number of elements of a list that satisfy a test. *)
Fixpoint countb {A} (p : A → bool) (l : list A) : nat :=
  match l with
  | [] => 0
  | x :: l' => (if p x then 1 else 0) + countb p l'
  end.

(** ** The node tree of [golang.org/x/net/html] *)

Inductive NodeType :=
  | ErrorNode | TextNode | DocumentNode | ElementNode
  | CommentNode | DoctypeNode | RawNode.

Record Attribute := mkAttr { Namespace : string; Key : string; Val : string }.

(** [html.Node]: the children of a node are the list reached from
    [FirstChild] through [NextSibling]. *)
Inductive Node :=
  | mkNode (NType : NodeType) (Data : string) (Attr : list Attribute)
           (Children : list Node).

Definition NType (n : Node) : NodeType := let 'mkNode t _ _ _ := n in t.
Definition Data (n : Node) : string := let 'mkNode _ d _ _ := n in d.
Definition Attr (n : Node) : list Attribute := let 'mkNode _ _ a _ := n in a.
Definition Children (n : Node) : list Node := let 'mkNode _ _ _ c := n in c.
Definition FirstChild (n : Node) : option Node := head (Children n).

Definition isElement (n : Node) : bool :=
  match NType n with ElementNode => true | _ => false end.
Definition isText (n : Node) : bool :=
  match NType n with TextNode => true | _ => false end.
Definition isDoctype (n : Node) : bool :=
  match NType n with DoctypeNode => true | _ => false end.

(** ** [net/url] *)

Record URL := mkURL {
  Scheme : string;
  Opaque : string;
  User : option string;
  Host : string;
  Path : string;
  ForceQuery : bool;
  RawQuery : string;
  Fragment : string
}.

(** ** The library interface *)

Class GoLib := {
  (** [strings.ToLower] *)
  ToLower : string → string;
  (** on ASCII input it lowers 'A'..'Z' and nothing else *)
  ToLower_ascii : ∀ s, isASCII s = true → ToLower s = asciiLower s;
  (** [strings.TrimSpace] *)
  TrimSpace : string → string;
  (** [url.Parse]; [None] is a non-nil error *)
  url_Parse : string → option URL;
  (** [base.ResolveReference(ref)] *)
  ResolveReference : URL → URL → URL;
  (** [u.String()] *)
  URL_String : URL → string;
  (** [html.Parse] on a response body; [None] is a non-nil error *)
  html_Parse : string → option Node
}.

(** ** The result record ([types.go]) *)

Record Result := mkResult {
  URL_ : string;
  HTMLVersion : string;
  Title : string;
  Headings : gmap string nat;
  InternalLinks : nat;
  ExternalLinks : nat;
  InaccessibleLinks : nat;
  HasLoginForm : bool;
  Error : string
}.

(** [&Result{URL: targetURL, Headings: make(map[string]int)}] *)
Definition newResult (targetURL : string) : Result :=
  mkResult targetURL "" "" ∅ 0 0 0 false "".

Definition setURL (u : string) (r : Result) : Result :=
  mkResult u (HTMLVersion r) (Title r) (Headings r) (InternalLinks r)
           (ExternalLinks r) (InaccessibleLinks r) (HasLoginForm r) (Error r).
Definition setHTMLVersion (v : string) (r : Result) : Result :=
  mkResult (URL_ r) v (Title r) (Headings r) (InternalLinks r)
           (ExternalLinks r) (InaccessibleLinks r) (HasLoginForm r) (Error r).
Definition setTitle (t : string) (r : Result) : Result :=
  mkResult (URL_ r) (HTMLVersion r) t (Headings r) (InternalLinks r)
           (ExternalLinks r) (InaccessibleLinks r) (HasLoginForm r) (Error r).
Definition setHeadings (h : gmap string nat) (r : Result) : Result :=
  mkResult (URL_ r) (HTMLVersion r) (Title r) h (InternalLinks r)
           (ExternalLinks r) (InaccessibleLinks r) (HasLoginForm r) (Error r).
Definition setInternalLinks (k : nat) (r : Result) : Result :=
  mkResult (URL_ r) (HTMLVersion r) (Title r) (Headings r) k
           (ExternalLinks r) (InaccessibleLinks r) (HasLoginForm r) (Error r).
Definition setExternalLinks (k : nat) (r : Result) : Result :=
  mkResult (URL_ r) (HTMLVersion r) (Title r) (Headings r) (InternalLinks r)
           k (InaccessibleLinks r) (HasLoginForm r) (Error r).
Definition setInaccessibleLinks (k : nat) (r : Result) : Result :=
  mkResult (URL_ r) (HTMLVersion r) (Title r) (Headings r) (InternalLinks r)
           (ExternalLinks r) k (HasLoginForm r) (Error r).
Definition setHasLoginForm (b : bool) (r : Result) : Result :=
  mkResult (URL_ r) (HTMLVersion r) (Title r) (Headings r) (InternalLinks r)
           (ExternalLinks r) (InaccessibleLinks r) b (Error r).

(** Reading [m[key]] in Go: the zero value when the key is absent. *)
Definition headingCount (m : gmap string nat) (key : string) : nat :=
  default 0 (m !! key).

(** [m[key]++] *)
Definition headingIncr (m : gmap string nat) (key : string) : gmap string nat :=
  <[key := S (headingCount m key)]> m.

(** ** The document analyzer *)

Section Analyzer.
Context `{L : GoLib}.

(** [detectHTMLVersion] *)
Definition detectHTMLVersion (doctype : string) : string :=
  let doctype := ToLower (TrimSpace doctype) in
  if String.eqb doctype "html" then "HTML5"
  else if Contains doctype "xhtml" then "XHTML"
  else if Contains doctype "html 4" then "HTML 4.01"
  else "HTML5".

(** The attribute loop of [processLink]: the first [href] that parses is
    classified and ends the loop; an [href] that does not parse is skipped
    ([continue]). *)
Fixpoint processLink_loop (attrs : list Attribute) (result : Result)
    (baseURL : URL) : Result :=
  match attrs with
  | [] => result
  | attr :: rest =>
      if String.eqb (Key attr) "href" then
        match url_Parse (Val attr) with
        | None => processLink_loop rest result baseURL
        | Some linkURL =>
            let resolvedURL := ResolveReference baseURL linkURL in
            if String.eqb (Host resolvedURL) (Host baseURL)
            then setInternalLinks (S (InternalLinks result)) result
            else setExternalLinks (S (ExternalLinks result)) result
        end
      else processLink_loop rest result baseURL
  end.

(** [processLink] *)
Definition processLink (n : Node) (result : Result) (baseURL : URL) : Result :=
  processLink_loop (Attr n) result baseURL.

(** The attribute loop of [checkFormFields]: the last [type] and the last
    [name] attribute win, both lowered. *)
Definition inputAttrs (attrs : list Attribute) : string * string :=
  fold_left
    (fun (acc : string * string) attr =>
       let inputType :=
         if String.eqb (Key attr) "type" then ToLower (Val attr) else fst acc in
       let inputName :=
         if String.eqb (Key attr) "name" then ToLower (Val attr) else snd acc in
       (inputType, inputName))
    attrs ("", "").

Definition isPasswordInput (n : Node) : bool :=
  String.eqb (fst (inputAttrs (Attr n))) "password".

Definition isUsernameInput (n : Node) : bool :=
  let inputType := fst (inputAttrs (Attr n)) in
  let inputName := snd (inputAttrs (Attr n)) in
  (String.eqb inputType "text" || String.eqb inputType "email"
   || String.eqb inputType "")
  && (Contains inputName "user" || Contains inputName "email"
      || Contains inputName "login").

Definition isInput (n : Node) : bool :=
  isElement n && String.eqb (Data n) "input".

(** [checkFormFields]: the two flags behind the pointers [hasPassword] and
    [hasUsername] are threaded through the walk. *)
Fixpoint checkFormFields (n : Node) (flags : bool * bool) : bool * bool :=
  match n with
  | mkNode _ _ _ children =>
      let flags :=
        if isInput n then
          (if isPasswordInput n then true else fst flags,
           if isUsernameInput n then true else snd flags)
        else flags in
      fold_left (fun fl c => checkFormFields c fl) children flags
  end.

(** [isLoginForm] *)
Definition isLoginForm (n : Node) : bool :=
  let flags := checkFormFields n (false, false) in
  fst flags && snd flags.

Definition isHeadingTag (tag : string) : bool :=
  String.eqb tag "h1" || String.eqb tag "h2" || String.eqb tag "h3"
  || String.eqb tag "h4" || String.eqb tag "h5" || String.eqb tag "h6".

(** The body of [traverseNode] before its loop over the children: the
    [switch] on the lowered tag of an element, and the doctype branch. *)
Definition traverseNode_visit (n : Node) (result : Result) (baseURL : URL)
    : Result :=
  match NType n with
  | ElementNode =>
      let tag := ToLower (Data n) in
      if String.eqb tag "title" then
        match FirstChild n with
        | Some c =>
            if isText c then setTitle (TrimSpace (Data c)) result else result
        | None => result
        end
      else if isHeadingTag tag then
        setHeadings (headingIncr (Headings result) tag) result
      else if String.eqb tag "a" then processLink n result baseURL
      else if String.eqb tag "form" then
        if isLoginForm n then setHasLoginForm true result else result
      else result
  | DoctypeNode => setHTMLVersion (detectHTMLVersion (Data n)) result
  | _ => result
  end.

(** [traverseNode] *)
Fixpoint traverseNode (n : Node) (result : Result) (baseURL : URL) : Result :=
  match n with
  | mkNode _ _ _ children =>
      fold_left (fun r c => traverseNode c r baseURL) children
                (traverseNode_visit n result baseURL)
  end.

(** [analyzeDocument] *)
Definition analyzeDocument (doc : Node) (result : Result) (baseURL : URL)
    : Result :=
  traverseNode doc result baseURL.

(** The attribute loop of [extractLinksFromNode]. *)
Fixpoint extractLinks_loop (attrs : list Attribute) (baseURL : URL)
    (links : list string) : list string :=
  match attrs with
  | [] => links
  | attr :: rest =>
      if String.eqb (Key attr) "href" then
        match url_Parse (Val attr) with
        | None => extractLinks_loop rest baseURL links
        | Some linkURL =>
            let resolvedURL := ResolveReference baseURL linkURL in
            if String.eqb (Scheme resolvedURL) "http"
               || String.eqb (Scheme resolvedURL) "https"
            then links ++ [URL_String resolvedURL]
            else links
        end
      else extractLinks_loop rest baseURL links
  end.

(** [extractLinksFromNode] *)
Fixpoint extractLinksFromNode (n : Node) (baseURL : URL) (links : list string)
    : list string :=
  match n with
  | mkNode _ _ attrs children =>
      let links :=
        if isElement n && String.eqb (Data n) "a"
        then extractLinks_loop attrs baseURL links
        else links in
      fold_left (fun ls c => extractLinksFromNode c baseURL ls) children links
  end.

(** [extractLinks] *)
Definition extractLinks (doc : Node) (baseURL : URL) : list string :=
  extractLinksFromNode doc baseURL [].

End Analyzer.

(** ** The HTTP client ([net/http]) and the outside world *)

Inductive Method := GET | HEAD.

(** Why [client.Do] returned a non-nil error. *)
Inductive TransportFailure :=
  | DNSFailure | ConnectionRefused | Timeout | TooManyRedirects
  | ContextCanceled | UnsupportedScheme | MissingHost | BadLocation.

(** What the network does with one request: no response at all, or a
    response with its status code, [Location] header (empty when absent)
    and body. *)
Inductive ServerReply :=
  | NoReply (f : TransportFailure)
  | Reply (code : Z) (location : string) (body : string).

Definition Network := Method → string → ServerReply.

Record Response := mkResponse { StatusCode : Z; Body : string }.

(** [config.AnalyzerConfig]; the two durations are in nanoseconds. *)
Record AnalyzerConfig := mkConfig {
  MaxWorkers : Z;
  RequestTimeout : Z;
  LinkTimeout : Z;
  MaxRedirects : Z
}.

(** The [CheckRedirect] closure installed by [New] and by
    [checkLinksAccessibility]; [true] is the error "too many redirects".
    [via] is [len(via)], the number of requests already made. *)
Definition CheckRedirect (config : AnalyzerConfig) (via : nat) : bool :=
  (Z.of_nat via >=? MaxRedirects config)%Z.

(** The status codes on which [net/http] follows a [Location]. *)
Definition redirectStatus (code : Z) : bool :=
  ((code =? 301) || (code =? 302) || (code =? 303) || (code =? 307)
   || (code =? 308))%Z.

Definition isHTTPScheme (scheme : string) : bool :=
  String.eqb scheme "http" || String.eqb scheme "https".

Section Client.
Context `{L : GoLib}.
Variable config : AnalyzerConfig.
Variable net : Network.

(** [http.NewRequestWithContext]: fails when the address does not parse. *)
Definition NewRequestWithContext (rawURL : string) : option URL :=
  url_Parse rawURL.

(** The request loop of [http.Client.Do] with the [CheckRedirect] above.
    [via] requests were made before this one.  The first component of the
    result is the number of redirects that were followed.  [fuel] bounds the
    number of further redirects; [Z.to_nat MaxRedirects] is always enough
    (see [client_loop_fuel]).  The transport rejects a scheme other than
    http and https, and a missing host, before it looks at the context. *)
Fixpoint client_loop (fuel : nat) (ctxDone : bool) (m : Method) (via : nat)
    (u : URL) : nat * (TransportFailure + Response) :=
  if negb (isHTTPScheme (Scheme u)) then (via, inl UnsupportedScheme)
  else if String.eqb (Host u) "" then (via, inl MissingHost)
  else if ctxDone then (via, inl ContextCanceled)
  else
    match net m (URL_String u) with
    | NoReply f => (via, inl f)
    | Reply code location body =>
        if redirectStatus code && negb (String.eqb location "") then
          match url_Parse location with
          | None => (via, inl BadLocation)
          | Some ref =>
              if CheckRedirect config (S via) then (via, inl TooManyRedirects)
              else
                match fuel with
                | O => (via, inl TooManyRedirects)
                | S fuel' =>
                    client_loop fuel' ctxDone m (S via)
                                (ResolveReference u ref)
                end
          end
        else (via, inr (mkResponse code body))
    end.

Definition client_Do_traced (ctxDone : bool) (m : Method) (req : URL)
    : nat * (TransportFailure + Response) :=
  client_loop (Z.to_nat (MaxRedirects config)) ctxDone m 0 req.

(** [client.Do(req)] *)
Definition client_Do (ctxDone : bool) (m : Method) (req : URL)
    : TransportFailure + Response :=
  snd (client_Do_traced ctxDone m req).

(** [checkSingleLink] *)
Definition checkSingleLink (ctxDone : bool) (link : string) : bool :=
  match NewRequestWithContext link with
  | None => false
  | Some req =>
      match client_Do ctxDone HEAD req with
      | inl _ => false
      | inr resp => ((StatusCode resp >=? 200) && (StatusCode resp <? 400))%Z
      end
  end.

(** Why [fetchHTML] returned a non-nil error. *)
Inductive FetchError :=
  | RequestError
  | TransportError (f : TransportFailure)
  | StatusError (code : Z)
  | MarkupError.

(** [fetchHTML] *)
Definition fetchHTML (ctxDone : bool) (targetURL : string)
    : FetchError + Node :=
  match NewRequestWithContext targetURL with
  | None => inl RequestError
  | Some req =>
      match client_Do ctxDone GET req with
      | inl f => inl (TransportError f)
      | inr resp =>
          if (StatusCode resp =? 200)%Z then
            match html_Parse (Body resp) with
            | None => inl MarkupError
            | Some doc => inr doc
            end
          else inl (StatusError (StatusCode resp))
      end
  end.

(** ** The worker pool of [checkLinksAccessibility]

    The goroutines of [checkLinksAccessibility] (one sender, [maxWorkers]
    workers, one closer, and the collecting loop of the caller) communicate
    through the two buffered channels [jobs] and [results], both of capacity
    [len(links)], so that no send ever blocks.  A state of the pool records
    the channels and where every goroutine stands; an [Event] is one
    goroutine taking one step, and a schedule is the list of events of one
    execution, in the order in which they happen. *)

Inductive WorkerState :=
  | Waiting                  (* at [for url := range jobs] *)
  | Checking (url : string)  (* inside [checkSingleLink] *)
  | Exited.                  (* after [wg.Done()] *)

Record Pool := mkPool {
  pending : list string;      (* links the sender has not offered yet *)
  jobs : list string;         (* the [jobs] channel *)
  jobsClosed : bool;
  workers : list WorkerState;
  results : list bool;        (* the [results] channel *)
  resultsClosed : bool;
  processed : nat;
  inaccessible : nat;
  ctxDone : bool;             (* [ctx.Done()] is closed *)
  probed : list string        (* the calls of [checkSingleLink] so far *)
}.

Inductive Event :=
  | EvCancel                (* the context is cancelled or times out *)
  | EvSend                  (* sender: [jobs <- link] *)
  | EvSenderStop            (* sender: leaves its loop, [close(jobs)] *)
  | EvReceive (w : nat)     (* worker [w] receives a link from [jobs] *)
  | EvChecked (w : nat)     (* worker [w]: check done, [results <- accessible] *)
  | EvWorkerExit (w : nat)  (* worker [w]: [jobs] closed and drained *)
  | EvCloseResults          (* closer: [wg.Wait()] returned, [close(results)] *)
  | EvCollect.              (* collector: one iteration of [range results] *)

Definition isExited (w : WorkerState) : bool :=
  match w with Exited => true | _ => false end.

Definition allExited (ws : list WorkerState) : bool := forallb isExited ws.

(** One step of one goroutine; [None] when the goroutine cannot take that
    step in that state. *)
Definition pool_step (s : Pool) (e : Event) : option Pool :=
  match e with
  | EvCancel =>
      Some (mkPool (pending s) (jobs s) (jobsClosed s) (workers s) (results s)
              (resultsClosed s) (processed s) (inaccessible s) true (probed s))
  | EvSend =>
      match jobsClosed s, pending s with
      | false, link :: rest =>
          Some (mkPool rest (jobs s ++ [link]) false (workers s) (results s)
                  (resultsClosed s) (processed s) (inaccessible s) (ctxDone s)
                  (probed s))
      | _, _ => None
      end
  | EvSenderStop =>
      if negb (jobsClosed s)
         && (match pending s with [] => true | _ => false end || ctxDone s)
      then Some (mkPool (pending s) (jobs s) true (workers s) (results s)
                   (resultsClosed s) (processed s) (inaccessible s) (ctxDone s)
                   (probed s))
      else None
  | EvReceive w =>
      match workers s !! w, jobs s with
      | Some Waiting, link :: rest =>
          Some (mkPool (pending s) rest (jobsClosed s)
                  (<[w := Checking link]> (workers s)) (results s)
                  (resultsClosed s) (processed s) (inaccessible s) (ctxDone s)
                  (probed s))
      | _, _ => None
      end
  | EvChecked w =>
      match workers s !! w with
      | Some (Checking link) =>
          let accessible := checkSingleLink (ctxDone s) link in
          Some (mkPool (pending s) (jobs s) (jobsClosed s)
                  (<[w := Waiting]> (workers s)) (results s ++ [accessible])
                  (resultsClosed s) (processed s) (inaccessible s) (ctxDone s)
                  (probed s ++ [link]))
      | _ => None
      end
  | EvWorkerExit w =>
      match workers s !! w, jobs s, jobsClosed s with
      | Some Waiting, [], true =>
          Some (mkPool (pending s) [] true (<[w := Exited]> (workers s))
                  (results s) (resultsClosed s) (processed s) (inaccessible s)
                  (ctxDone s) (probed s))
      | _, _, _ => None
      end
  | EvCloseResults =>
      if negb (resultsClosed s) && allExited (workers s)
      then Some (mkPool (pending s) (jobs s) (jobsClosed s) (workers s)
                   (results s) true (processed s) (inaccessible s) (ctxDone s)
                   (probed s))
      else None
  | EvCollect =>
      match results s with
      | accessible :: rest =>
          Some (mkPool (pending s) (jobs s) (jobsClosed s) (workers s) rest
                  (resultsClosed s) (S (processed s))
                  (if accessible then inaccessible s else S (inaccessible s))
                  (ctxDone s) (probed s))
      | [] => None
      end
  end.

Fixpoint pool_run (sched : list Event) (s : Pool) : option Pool :=
  match sched with
  | [] => Some s
  | e :: sched' =>
      match pool_step s e with
      | Some s' => pool_run sched' s'
      | None => None
      end
  end.

(** [maxWorkers] after the clamp to [len(links)]. *)
Definition effectiveWorkers (links : list string) : Z :=
  let maxWorkers := MaxWorkers config in
  if (maxWorkers >? Z.of_nat (length links))%Z then Z.of_nat (length links)
  else maxWorkers.

(** The state once [for i := 0; i < maxWorkers; i++] has started the
    workers and the sender, closer and collector are about to run. *)
Definition pool_init (ctxDone0 : bool) (links : list string) : Pool :=
  mkPool links [] false
         (replicate (Z.to_nat (effectiveWorkers links)) Waiting)
         [] false 0 0 ctxDone0 [].

(** The loop [for accessible := range results] ends when [results] is
    closed and empty. *)
Definition collectorDone (s : Pool) : bool :=
  resultsClosed s && match results s with [] => true | _ => false end.

(** [checkLinksAccessibility] under the schedule [sched]: the returned count
    together with the link checks that were made.  [None] when [sched] is
    not an execution that lets the collector finish. *)
Definition checkLinksAccessibility (ctxDone0 : bool) (links : list string)
    (sched : list Event) : option (nat * list string) :=
  if (length links =? 0)%nat then Some (0, [])
  else
    match pool_run sched (pool_init ctxDone0 links) with
    | Some s =>
        if collectorDone s then Some (inaccessible s, probed s) else None
    | None => None
    end.

(** Why [AnalyzeURL] returned a nil result and a non-nil error. *)
Inductive AnalyzeError :=
  | InvalidURL
  | FetchFailed (e : FetchError).

(** [AnalyzeURL], with the link checks made on the way.  [None] only when
    [sched] is not a complete execution of the worker pool. *)
Definition AnalyzeURL_traced (ctxDone0 : bool) (targetURL : string)
    (sched : list Event) : option (AnalyzeError + Result * list string) :=
  let result := newResult targetURL in
  match url_Parse targetURL with
  | None => Some (inl InvalidURL)
  | Some parsedURL =>
      let normalized :=
        if String.eqb (Scheme parsedURL) "" then
          match url_Parse ("http://" +:+ targetURL) with
          | None => None
          | Some parsedURL' => Some ("http://" +:+ targetURL, parsedURL')
          end
        else Some (targetURL, parsedURL) in
      match normalized with
      | None => Some (inl InvalidURL)
      | Some (targetURL, parsedURL) =>
          let result := setURL targetURL result in
          match fetchHTML ctxDone0 targetURL with
          | inl e => Some (inl (FetchFailed e))
          | inr doc =>
              let result := analyzeDocument doc result parsedURL in
              let links := extractLinks doc parsedURL in
              if (0 <? length links)%nat then
                match checkLinksAccessibility ctxDone0 links sched with
                | Some (count, checks) =>
                    Some (inr (setInaccessibleLinks count result, checks))
                | None => None
                end
              else Some (inr (result, []))
          end
      end
  end.

(** [AnalyzeURL] *)
Definition AnalyzeURL (ctxDone0 : bool) (targetURL : string)
    (sched : list Event) : option (AnalyzeError + Result) :=
  match AnalyzeURL_traced ctxDone0 targetURL sched with
  | Some (inl e) => Some (inl e)
  | Some (inr (result, _)) => Some (inr result)
  | None => None
  end.

(** A schedule in which nothing is cancelled: the sender offers every
    link and closes [jobs], worker 0 checks the links one after the other,
    every worker exits, [results] is closed and the collector drains it.
    When no worker was started nothing is checked and nothing collected. *)
Definition sequentialSchedule (links : list string) : list Event :=
  let w := Z.to_nat (effectiveWorkers links) in
  let k := if (w =? 0)%nat then 0 else length links in
  replicate (length links) EvSend ++ [EvSenderStop]
  ++ concat (replicate k [EvReceive 0; EvChecked 0])
  ++ map EvWorkerExit (seq 0 w)
  ++ [EvCloseResults]
  ++ replicate k EvCollect.

(** The workers that are inside [checkSingleLink]. *)
Definition isChecking (w : WorkerState) : bool :=
  match w with Checking _ => true | _ => false end.

(** The links of a list whose check fails while the context is live. *)
Definition failing (links : list string) : nat :=
  countb (λ link, negb (checkSingleLink false link)) links.

(** A worker that is inside a check that will fail. *)
Definition isFailingCheck (w : WorkerState) : bool :=
  match w with
  | Checking link => negb (checkSingleLink false link)
  | _ => false
  end.

(** What holds in every state of a pool that works on [total] links with
    [started] workers: the collector never counts more than it has
    received, every result comes from one check, and every link is in
    exactly one place. *)
Record PoolInv (total started : nat) (s : Pool) : Prop := {
  inv_workers : length (workers s) = started;
  inv_count : inaccessible s ≤ processed s;
  inv_results : processed s + length (results s) = length (probed s);
  inv_links :
    length (probed s) + countb isChecking (workers s) + length (jobs s)
    + length (pending s) = total
}.

(** What holds in addition as long as the context is not cancelled: the
    sender closes [jobs] only once every link is sent, a worker exits only
    once [jobs] is closed and drained, [results] is closed only once every
    worker has exited, and no failed check is lost on its way to the
    count. *)
Record PoolLive (links : list string) (s : Pool) : Prop := {
  live_ctx : ctxDone s = false;
  live_closed : jobsClosed s = true → pending s = [];
  live_exited :
    existsb isExited (workers s) = true →
    jobs s = [] ∧ jobsClosed s = true;
  live_done : resultsClosed s = true → allExited (workers s) = true;
  live_count : inaccessible s + countb negb (results s) = failing (probed s);
  live_links :
    failing (probed s) + countb isFailingCheck (workers s)
    + failing (jobs s) + failing (pending s) = failing links
}.

End Client.

(** ** An implementation of the library interface

    [net/url] and the [strings] functions on 7-bit input, to run the
    analyzer on concrete pages.  [Parse], [ResolveReference] and [String]
    follow [net/url] on references that contain no percent escape, no
    bracketed host and no dot segment: escapes are not decoded and
    [resolvePath] does not remove "." and "..".  The markup parser is a
    parameter. *)

Module Ascii7.

(** [strings.Cut] with a one-byte separator. *)
Fixpoint cut (sep : ascii) (s : string) : string * string * bool :=
  match s with
  | EmptyString => (EmptyString, EmptyString, false)
  | String c s' =>
      if Ascii.eqb c sep then (EmptyString, s', true)
      else let '(before, after, found) := cut sep s' in
           (String c before, after, found)
  end.

(** The split at the last occurrence of [sep], if there is one. *)
Fixpoint cutLast (sep : ascii) (s : string) : option (string * string) :=
  match s with
  | EmptyString => None
  | String c s' =>
      match cutLast sep s' with
      | Some (before, after) => Some (String c before, after)
      | None => if Ascii.eqb c sep then Some (EmptyString, s') else None
      end
  end.

Fixpoint containsByte (sep : ascii) (s : string) : bool :=
  match s with
  | EmptyString => false
  | String c s' => Ascii.eqb c sep || containsByte sep s'
  end.

Fixpoint stringContainsCTLByte (s : string) : bool :=
  match s with
  | EmptyString => false
  | String c s' =>
      (nat_of_ascii c <? 32)%nat || (nat_of_ascii c =? 127)%nat
      || stringContainsCTLByte s'
  end.

Definition isLetter (c : ascii) : bool :=
  let n := nat_of_ascii c in
  ((97 <=? n) && (n <=? 122) || (65 <=? n) && (n <=? 90))%nat.

Definition isDigit (c : ascii) : bool :=
  let n := nat_of_ascii c in ((48 <=? n) && (n <=? 57))%nat.

(** [getScheme]: [None] is the error "missing protocol scheme". *)
Fixpoint getScheme_loop (i : nat) (scheme rest rawURL : string)
    : option (string * string) :=
  match rest with
  | EmptyString => Some (EmptyString, rawURL)
  | String c rest' =>
      if isLetter c then
        getScheme_loop (S i) (scheme +:+ String c EmptyString) rest' rawURL
      else if isDigit c || Ascii.eqb c "+" || Ascii.eqb c "-"
              || Ascii.eqb c "." then
        if (i =? 0)%nat then Some (EmptyString, rawURL)
        else getScheme_loop (S i) (scheme +:+ String c EmptyString) rest' rawURL
      else if Ascii.eqb c ":" then
        if (i =? 0)%nat then None else Some (scheme, rest')
      else Some (EmptyString, rawURL)
  end.

Definition getScheme (rawURL : string) : option (string * string) :=
  getScheme_loop 0 EmptyString rawURL rawURL.

Fixpoint allDigits (s : string) : bool :=
  match s with
  | EmptyString => true
  | String c s' => isDigit c && allDigits s'
  end.

(** [parseAuthority]: user information before the last "@", then the
    host, whose port, if any, must be made of digits. *)
Definition parseAuthority (authority : string)
    : option (option string * string) :=
  let '(user, host) :=
    match cutLast "@" authority with
    | Some (userinfo, host) => (Some userinfo, host)
    | None => (None, authority)
    end in
  match cutLast ":" host with
  | Some (_, port) => if allDigits port then Some (user, host) else None
  | None => Some (user, host)
  end.

(** [url.Parse] *)
Definition Parse (rawURL : string) : option URL :=
  let '(u, frag, _) := cut "#" rawURL in
  if stringContainsCTLByte u then None
  else if String.eqb u "*" then
    Some (mkURL "" "" None "" "*" false "" frag)
  else
    match getScheme u with
    | None => None
    | Some (scheme, rest) =>
        let scheme := asciiLower scheme in
        let '(rest, query, found) := cut "?" rest in
        let forceQuery :=
          found && String.eqb query "" in
        if negb (HasPrefix rest "/") && negb (String.eqb scheme "") then
          Some (mkURL scheme rest None "" "" forceQuery query frag)
        else if negb (HasPrefix rest "/")
                && containsByte ":" (fst (fst (cut "/" rest))) then None
        else if HasPrefix rest "//"
                && (negb (String.eqb scheme "") || negb (HasPrefix rest "///"))
        then
          let '(authority, path, slash) :=
            cut "/" (String.substring 2 (String.length rest) rest) in
          let path := if slash then String "/" path else EmptyString in
          match parseAuthority authority with
          | None => None
          | Some (user, host) =>
              Some (mkURL scheme "" user host path forceQuery query frag)
          end
        else Some (mkURL scheme "" None "" rest forceQuery query frag)
    end.

(** [resolvePath], without the removal of dot segments. *)
Definition resolvePath (base ref : string) : string :=
  if String.eqb ref "" then base
  else if HasPrefix ref "/" then ref
  else
    match cutLast "/" base with
    | Some (dir, _) => dir +:+ "/" +:+ ref
    | None => "/" +:+ ref
    end.

(** [u.ResolveReference(ref)] *)
Definition Resolve (u ref : URL) : URL :=
  let scheme := if String.eqb (Scheme ref) "" then Scheme u else Scheme ref in
  if negb (String.eqb (Scheme ref) "") || negb (String.eqb (Host ref) "")
     || match User ref with Some _ => true | None => false end
  then
    mkURL scheme (Opaque ref) (User ref) (Host ref)
          (resolvePath (Path ref) "") (ForceQuery ref) (RawQuery ref)
          (Fragment ref)
  else if negb (String.eqb (Opaque ref) "") then
    mkURL scheme (Opaque ref) None "" "" (ForceQuery ref) (RawQuery ref)
          (Fragment ref)
  else
    let inherit :=
      String.eqb (Path ref) "" && negb (ForceQuery ref)
      && String.eqb (RawQuery ref) "" in
    let query := if inherit then RawQuery u else RawQuery ref in
    let frag :=
      if inherit && String.eqb (Fragment ref) "" then Fragment u
      else Fragment ref in
    if String.eqb (Path ref) "" && negb (String.eqb (Opaque u) "") then
      mkURL scheme (Opaque u) None "" "" (ForceQuery ref) query frag
    else
      mkURL scheme "" (User u) (Host u) (resolvePath (Path u) (Path ref))
            (ForceQuery ref) query frag.

(** [u.String()] *)
Definition ToString (u : URL) : string :=
  (if String.eqb (Scheme u) "" then "" else Scheme u +:+ ":")
  +:+ (if negb (String.eqb (Opaque u) "") then Opaque u
       else
         (if negb (String.eqb (Scheme u) "") || negb (String.eqb (Host u) "")
             || match User u with Some _ => true | None => false end
          then
            (if negb (String.eqb (Host u) "") || negb (String.eqb (Path u) "")
                || match User u with Some _ => true | None => false end
             then "//" else "")
            +:+ match User u with Some ui => ui +:+ "@" | None => "" end
            +:+ Host u
          else "")
         +:+ (if negb (String.eqb (Path u) "") && negb (HasPrefix (Path u) "/")
                 && negb (String.eqb (Host u) "")
              then "/" else "")
         +:+ Path u)
  +:+ (if ForceQuery u || negb (String.eqb (RawQuery u) "")
       then "?" +:+ RawQuery u else "")
  +:+ (if String.eqb (Fragment u) "" then "" else "#" +:+ Fragment u).

#[local] Instance lib (parseHTML : string → option Node) : GoLib := {|
  ToLower := asciiLower;
  ToLower_ascii := fun s _ => eq_refl;
  TrimSpace := asciiTrimSpace;
  url_Parse := Parse;
  ResolveReference := Resolve;
  URL_String := ToString;
  html_Parse := parseHTML
|}.

End Ascii7.

(** ** Reading a document

    The nodes of a tree in document order, and what the specification
    counts on them. *)

(** A node followed by its descendants, depth first. *)
Fixpoint preorder (n : Node) : list Node :=
  match n with
  | mkNode _ _ _ children => n :: flat_map preorder children
  end.

Definition descendants (n : Node) : list Node :=
  flat_map preorder (Children n).

Section Reading.
Context `{L : GoLib}.

(** An element whose lowered tag is [tag]. *)
Definition hasTag (tag : string) (n : Node) : bool :=
  isElement n && String.eqb (ToLower (Data n)) tag.

(** The text a [title] element gives to the result, if any. *)
Definition titleText (n : Node) : option string :=
  if hasTag "title" n then
    match FirstChild n with
    | Some c => if isText c then Some (TrimSpace (Data c)) else None
    | None => None
    end
  else None.

(** The literal of a doctype node. *)
Definition doctypeLiteral (n : Node) : option string :=
  if isDoctype n then Some (Data n) else None.

(** The first [href] attribute whose value parses. *)
Fixpoint firstParsedHref (attrs : list Attribute) : option URL :=
  match attrs with
  | [] => None
  | attr :: rest =>
      if String.eqb (Key attr) "href" then
        match url_Parse (Val attr) with
        | Some u => Some u
        | None => firstParsedHref rest
        end
      else firstParsedHref rest
  end.

(** An anchor that [traverseNode] classifies. *)
Definition classifiedAnchor (n : Node) : bool :=
  hasTag "a" n && bool_decide (is_Some (firstParsedHref (Attr n))).

(** An anchor that [traverseNode] classifies as same-site: its [href]
    resolves to the host of the page. *)
Definition internalAnchor (baseURL : URL) (n : Node) : bool :=
  hasTag "a" n
  && match firstParsedHref (Attr n) with
     | Some u =>
         String.eqb (Host (ResolveReference baseURL u)) (Host baseURL)
     | None => false
     end.

(** An anchor that [traverseNode] classifies as cross-site. *)
Definition externalAnchor (baseURL : URL) (n : Node) : bool :=
  hasTag "a" n
  && match firstParsedHref (Attr n) with
     | Some u =>
         negb (String.eqb (Host (ResolveReference baseURL u)) (Host baseURL))
     | None => false
     end.

(** The address that [extractLinksFromNode] appends for a node, if any. *)
Definition probeTarget (baseURL : URL) (n : Node) : option string :=
  if isElement n && String.eqb (Data n) "a" then
    match firstParsedHref (Attr n) with
    | Some u =>
        if isHTTPScheme (Scheme (ResolveReference baseURL u))
        then Some (URL_String (ResolveReference baseURL u))
        else None
    | None => None
    end
  else None.

(** An anchor whose address [extractLinksFromNode] appends. *)
Definition probedAnchor (baseURL : URL) (n : Node) : bool :=
  match probeTarget baseURL n with Some _ => true | None => false end.

(** The level that a heading element increments. *)
Definition headingKey (n : Node) : option string :=
  if isElement n && isHeadingTag (ToLower (Data n))
  then Some (ToLower (Data n)) else None.

(** What [checkFormFields] does at one node. *)
Definition checkFormFields_visit (n : Node) (flags : bool * bool)
    : bool * bool :=
  if isInput n then
    (if isPasswordInput n then true else fst flags,
     if isUsernameInput n then true else snd flags)
  else flags.

(** What [extractLinksFromNode] does at one node. *)
Definition extractLinks_visit (baseURL : URL) (n : Node) (links : list string)
    : list string :=
  if isElement n && String.eqb (Data n) "a"
  then extractLinks_loop (Attr n) baseURL links
  else links.

(** The value of an attribute; of a repeated attribute, the last one. *)
Definition attrValue (key : string) (attrs : list Attribute) : option string :=
  last (Val <$> filter (λ a, Key a = key) attrs).

Definition nameIdentifiesUser (name : string) : bool :=
  Contains name "user" || Contains name "email" || Contains name "login".

End Reading.

(** *** The statements of the specification, word for word *)

Section Specification.
Context `{L : GoLib}.

(** The first attribute named [href], whether it parses or not. *)
Definition spec_firstHref (attrs : list Attribute) : option string :=
  Val <$> head (filter (λ a, Key a = "href") attrs).

(** "An anchor element whose first href attribute parses and resolves
    against the base address to an HTTP or HTTPS address". *)
Definition spec_linkAnchor (baseURL : URL) (n : Node) : bool :=
  hasTag "a" n
  && match spec_firstHref (Attr n) with
     | Some href =>
         match url_Parse href with
         | Some u => isHTTPScheme (Scheme (ResolveReference baseURL u))
         | None => false
         end
     | None => false
     end.

(** "A descendant input of type password (case-insensitive)". *)
Definition spec_passwordInput (n : Node) : bool :=
  isInput n
  && match attrValue "type" (Attr n) with
     | Some t => String.eqb (ToLower t) "password"
     | None => false
     end.

(** "A descendant input whose name attribute contains the substring user,
    email or login (case-insensitive) while its type attribute is absent,
    text, or email". *)
Definition spec_usernameInput (n : Node) : bool :=
  isInput n
  && match attrValue "name" (Attr n) with
     | Some name => nameIdentifiesUser (ToLower name)
     | None => false
     end
  && match attrValue "type" (Attr n) with
     | None => true
     | Some t => String.eqb (ToLower t) "text" || String.eqb (ToLower t) "email"
     end.

Definition spec_loginForm (form : Node) : bool :=
  existsb spec_passwordInput (descendants form)
  && existsb spec_usernameInput (descendants form).

(** The same with an empty [type] attribute accepted like an absent one. *)
Definition usernameInput (n : Node) : bool :=
  isInput n
  && match attrValue "name" (Attr n) with
     | Some name => nameIdentifiesUser (ToLower name)
     | None => false
     end
  && match attrValue "type" (Attr n) with
     | None => true
     | Some t =>
         String.eqb (ToLower t) "" || String.eqb (ToLower t) "text"
         || String.eqb (ToLower t) "email"
     end.

(** "Invalid address": the address, or the address with [http://] put in
    front when it has no scheme, does not parse.  Otherwise the address that
    is fetched and its parsed form. *)
Definition spec_normalizedAddress (targetURL : string)
    : option (string * URL) :=
  match url_Parse targetURL with
  | None => None
  | Some u =>
      if String.eqb (Scheme u) "" then
        match url_Parse ("http://" +:+ targetURL) with
        | None => None
        | Some u' => Some ("http://" +:+ targetURL, u')
        end
      else Some (targetURL, u)
  end.

End Specification.

(** ** Sample pages *)

Module Samples.

Definition text (s : string) : Node := mkNode TextNode s [] [].
Definition elem (tag : string) (attrs : list Attribute) (cs : list Node)
    : Node := mkNode ElementNode tag attrs cs.
Definition attr (k v : string) : Attribute := mkAttr "" k v.
Definition document (cs : list Node) : Node := mkNode DocumentNode "" [] cs.
Definition doctype (literal : string) : Node :=
  mkNode DoctypeNode literal [] [].

(** No markup parser is needed to run the traversal. *)
Definition noParser : string → option Node := λ _, None.

Definition lib : GoLib := Ascii7.lib noParser.

Definition base : URL :=
  mkURL "https" "" None "example.com" "" false "" "".

(** [<html><body><a href="mailto:test@example.com">Email</a></body></html>] *)
Definition mailPage : Node :=
  document
    [elem "html" []
       [elem "head" [] [];
        elem "body" []
          [elem "a" [attr "href" "mailto:test@example.com"] [text "Email"]]]].

(** The scenario of the specification:
    [<!DOCTYPE html><html><head><title>T</title></head><body><h1>A</h1>
     <h2>B</h2><h2>C</h2><a href="/x">i</a>
     <a href="https://ext.example">e</a></body></html>] *)
Definition scenarioPage : Node :=
  document
    [doctype "html";
     elem "html" []
       [elem "head" [] [elem "title" [] [text "T"]];
        elem "body" []
          [elem "h1" [] [text "A"];
           elem "h2" [] [text "B"];
           elem "h2" [] [text "C"];
           elem "a" [attr "href" "/x"] [text "i"];
           elem "a" [attr "href" "https://ext.example"] [text "e"]]]].

(** The same page without its doctype. *)
Definition noDoctypePage : Node :=
  document
    [elem "html" []
       [elem "head" [] [elem "title" [] [text "T"]];
        elem "body" [] [elem "h1" [] [text "A"]]]].

(** [<form><input type="" name="user"><input type="password" name="p">
     </form>] *)
Definition emptyTypeForm : Node :=
  elem "form" []
    [elem "input" [attr "type" ""; attr "name" "user"] [];
     elem "input" [attr "type" "password"; attr "name" "p"] []].

(** [<form><input type="email" name="email">
     <input type="password" name="password"></form>] *)
Definition loginForm : Node :=
  elem "form" []
    [elem "input" [attr "type" "email"; attr "name" "email"] [];
     elem "input" [attr "type" "password"; attr "name" "password"] []].

(** A parser that knows one page. *)
Definition scenarioParser (body : string) : option Node :=
  if String.eqb body "scenario" then Some scenarioPage else None.

Definition webLib : GoLib := Ascii7.lib scenarioParser.

(** The page is served; its internal link answers 200, the host of its
    external link does not resolve. *)
Definition web : Network := λ m address,
  match m with
  | GET =>
      if String.eqb address "https://example.com"
      then Reply 200 "" "scenario"
      else if String.eqb address "https://example.com/moved"
      then Reply 301 "https://example.com" ""
      else Reply 404 "" ""
  | HEAD =>
      if String.eqb address "https://example.com/x" then Reply 200 "" ""
      else if String.eqb address "https://ext.example"
      then NoReply DNSFailure
      else Reply 404 "" ""
  end.

(** Durations in nanoseconds: 30s and 10s. *)
Definition config : AnalyzerConfig := mkConfig 3 30000000000 10000000000 5.

Definition noWorkers : AnalyzerConfig :=
  mkConfig 0 30000000000 10000000000 5.

(** Two workers check the two links of the page at the same time; the
    second check ends first. *)
Definition interleaved : list Event :=
  [EvSend; EvReceive 0; EvSend; EvReceive 1; EvSenderStop; EvChecked 1;
   EvCollect; EvChecked 0; EvWorkerExit 1; EvWorkerExit 0; EvCloseResults;
   EvCollect].

End Samples.

(** ** Finishing an execution of the pool *)

(** The link that a worker is checking. *)
Definition checkingLink (w : WorkerState) : option string :=
  match w with Checking link => Some link | _ => None end.

Definition checkingLinks (ws : list WorkerState) : list string :=
  omap checkingLink ws.

Definition isWaiting (w : WorkerState) : bool :=
  match w with Waiting => true | _ => false end.

(** A worker once its check is over, and once it has left its loop. *)
Definition settle (w : WorkerState) : WorkerState :=
  match w with Checking _ => Waiting | _ => w end.

Definition retire (w : WorkerState) : WorkerState :=
  match w with Waiting => Exited | _ => w end.

(** The workers, from index [i] on, that are inside a check end it. *)
Fixpoint settleEvents (i : nat) (ws : list WorkerState) : list Event :=
  match ws with
  | [] => []
  | w :: ws' =>
      match w with Checking _ => [EvChecked i] | _ => [] end
      ++ settleEvents (S i) ws'
  end.

(** The workers, from index [i] on, that wait for a job leave. *)
Fixpoint retireEvents (i : nat) (ws : list WorkerState) : list Event :=
  match ws with
  | [] => []
  | w :: ws' =>
      match w with Waiting => [EvWorkerExit i] | _ => [] end
      ++ retireEvents (S i) ws'
  end.

Fixpoint firstWaiting (i : nat) (ws : list WorkerState) : option nat :=
  match ws with
  | [] => None
  | w :: ws' => if isWaiting w then Some i else firstWaiting (S i) ws'
  end.

(** A way to the end from any state, without a cancellation: the sender
    offers what it still holds and closes [jobs]; the checks in flight end;
    a worker that waits, if there is one, takes the queued jobs one by one;
    the workers leave; [results] is closed and the collector drains it. *)
Definition finishSchedule (s : Pool) : list Event :=
  let queued := if jobsClosed s then jobs s else jobs s ++ pending s in
  let ws := map settle (workers s) in
  (if jobsClosed s then []
   else replicate (length (pending s)) EvSend ++ [EvSenderStop])
  ++ settleEvents 0 (workers s)
  ++ match firstWaiting 0 ws with
     | Some w => concat (replicate (length queued) [EvReceive w; EvChecked w])
     | None => []
     end
  ++ retireEvents 0 ws
  ++ (if resultsClosed s then [] else [EvCloseResults])
  ++ replicate
       (length (results s) + length (checkingLinks (workers s))
        + match firstWaiting 0 ws with
          | Some _ => length queued
          | None => 0
          end)
       EvCollect.

(** Every link is in exactly one place: checked already, being checked,
    queued in [jobs], or still with the sender. *)
Definition linksAccounted (links : list string) (s : Pool) : Prop :=
  probed s ++ checkingLinks (workers s) ++ jobs s ++ pending s ≡ₚ links.

(** What holds in every state once the context is cancelled: every
    outcome on its way to the collector is a failure. *)
Definition poolCancelled (s : Pool) : Prop :=
  ctxDone s = true ∧ forallb negb (results s) = true.


(** The keys of a headings map are levels and its values are positive. *)
Definition headingsWellFormed (m : gmap string nat) : Prop :=
  ∀ key v, m !! key = Some v → isHeadingTag key = true ∧ 1 ≤ v.

(** ** Redirect chains, as the network answers them *)

Section Chains.
Context `{L : GoLib}.
Variable net : Network.




End Chains.

Module Redirects.



End Redirects.

(** ** The configuration loader (package [config]) *)

(** [config.Config]; the durations are in nanoseconds. *)
Record Config := mkAppConfig {
  Port : string;
  PprofEnabled : bool;
  PprofPort : string;
  LogLevel : string;
  LogFormat : string;
  ReadTimeout : Z;
  WriteTimeout : Z;
  Analyzer : AnalyzerConfig
}.

Definition setPort (v : string) (c : Config) : Config :=
  mkAppConfig v (PprofEnabled c) (PprofPort c) (LogLevel c) (LogFormat c)
              (ReadTimeout c) (WriteTimeout c) (Analyzer c).
Definition setPprofEnabled (v : bool) (c : Config) : Config :=
  mkAppConfig (Port c) v (PprofPort c) (LogLevel c) (LogFormat c)
              (ReadTimeout c) (WriteTimeout c) (Analyzer c).
Definition setPprofPort (v : string) (c : Config) : Config :=
  mkAppConfig (Port c) (PprofEnabled c) v (LogLevel c) (LogFormat c)
              (ReadTimeout c) (WriteTimeout c) (Analyzer c).
Definition setLogLevel (v : string) (c : Config) : Config :=
  mkAppConfig (Port c) (PprofEnabled c) (PprofPort c) v (LogFormat c)
              (ReadTimeout c) (WriteTimeout c) (Analyzer c).
Definition setLogFormat (v : string) (c : Config) : Config :=
  mkAppConfig (Port c) (PprofEnabled c) (PprofPort c) (LogLevel c) v
              (ReadTimeout c) (WriteTimeout c) (Analyzer c).
Definition setAnalyzer (v : AnalyzerConfig) (c : Config) : Config :=
  mkAppConfig (Port c) (PprofEnabled c) (PprofPort c) (LogLevel c)
              (LogFormat c) (ReadTimeout c) (WriteTimeout c) v.

Definition setMaxWorkers (v : Z) (c : Config) : Config :=
  setAnalyzer (mkConfig v (RequestTimeout (Analyzer c))
                        (LinkTimeout (Analyzer c))
                        (MaxRedirects (Analyzer c))) c.
Definition setRequestTimeout (v : Z) (c : Config) : Config :=
  setAnalyzer (mkConfig (MaxWorkers (Analyzer c)) v
                        (LinkTimeout (Analyzer c))
                        (MaxRedirects (Analyzer c))) c.
Definition setLinkTimeout (v : Z) (c : Config) : Config :=
  setAnalyzer (mkConfig (MaxWorkers (Analyzer c))
                        (RequestTimeout (Analyzer c)) v
                        (MaxRedirects (Analyzer c))) c.
Definition setMaxRedirects (v : Z) (c : Config) : Config :=
  setAnalyzer (mkConfig (MaxWorkers (Analyzer c))
                        (RequestTimeout (Analyzer c))
                        (LinkTimeout (Analyzer c)) v) c.

Definition second : Z := 1000000000.

(** The defaults that [Load] starts from. *)
Definition defaultConfig : Config :=
  mkAppConfig ":8080" true "localhost:6060" "info" "json"
              (15 * second) (15 * second)
              (mkConfig 10 (30 * second) (10 * second) 5).

(** The environment of the process; [os.Getenv] returns the empty string
    for a variable that is not set. *)
Definition Env := gmap string string.

Definition Getenv (env : Env) (key : string) : string :=
  default "" (env !! key).

(** The variables that [overrideWithEnv] reads. *)
Definition overrideKeys : list string :=
  ["PORT"; "PPROF_ENABLED"; "PPROF_PORT"; "LOG_LEVEL"; "LOG_FORMAT";
   "MAX_WORKERS"; "REQUEST_TIMEOUT"; "LINK_TIMEOUT"; "MAX_REDIRECTS"].

Section Loader.
(** What the loader takes from outside the repository: [strconv.Atoi],
    [time.ParseDuration] and [os.ReadFile] ([None] is a non-nil error), and
    [yaml.Unmarshal], which returns the configuration it leaves behind and
    whether it returned an error. *)
Variable Atoi : string → option Z.
Variable ParseDuration : string → option Z.
Variable ReadFile : string → option string.
Variable Unmarshal : string → Config → Config * bool.
Variable env : Env.

(** [if v := os.Getenv(key); v != "" { ... }] *)
Definition ifSet (key : string) (f : string → Config → Config)
    (config : Config) : Config :=
  let v := Getenv env key in
  if String.eqb v "" then config else f v config.

(** [if x, err := parse(v); err == nil { ... }] *)
Definition ifParsed (parse : string → option Z) (set : Z → Config → Config)
    (v : string) (config : Config) : Config :=
  match parse v with
  | Some x => set x config
  | None => config
  end.

(** [overrideWithEnv] *)
Definition overrideWithEnv (config : Config) : Config :=
  let config := ifSet "PORT" setPort config in
  let config :=
    ifSet "PPROF_ENABLED" (λ v, setPprofEnabled (String.eqb v "true"))
          config in
  let config := ifSet "PPROF_PORT" setPprofPort config in
  let config := ifSet "LOG_LEVEL" setLogLevel config in
  let config := ifSet "LOG_FORMAT" setLogFormat config in
  let config := ifSet "MAX_WORKERS" (ifParsed Atoi setMaxWorkers) config in
  let config :=
    ifSet "REQUEST_TIMEOUT" (ifParsed ParseDuration setRequestTimeout)
          config in
  let config :=
    ifSet "LINK_TIMEOUT" (ifParsed ParseDuration setLinkTimeout) config in
  ifSet "MAX_REDIRECTS" (ifParsed Atoi setMaxRedirects) config.

(** The paths that [loadFromYAML] tries, in order. *)
Definition configPaths : list string :=
  let configPaths := ["config.yaml"; "configs/config.yaml"] in
  let customPath := Getenv env "CONFIG_PATH" in
  if String.eqb customPath "" then configPaths
  else customPath :: configPaths.

(** The loop [for _, path := range configPaths] of [loadFromYAML]: the
    data of the first file that can be read, or [None] when the last
    [os.ReadFile] returned an error.  [last] is what the variables
    [configData] and [err] hold before the loop. *)
Fixpoint readFirst (paths : list string) (last : option string)
    : option string :=
  match paths with
  | [] => last
  | path :: paths' =>
      match ReadFile path with
      | Some configData => Some configData
      | None => readFirst paths' None
      end
  end.

(** [loadFromYAML]: the configuration it leaves behind and whether it
    returned an error. *)
Definition loadFromYAML (config : Config) : Config * bool :=
  match readFirst configPaths (Some "") with
  | None => (config, true)
  | Some configData => Unmarshal configData config
  end.

(** [Load]: the configuration and whether the error is non-nil.  The error
    of [loadFromYAML] is dropped. *)
Definition Load : Config * bool :=
  let config := defaultConfig in
  let config := fst (loadFromYAML config) in
  (overrideWithEnv config, false).

End Loader.

(** What a field holds after [overrideWithEnv], given what it held
    before: a string, the flag [PprofEnabled], and a number read by
    [parse]. *)
Definition envString (env : Env) (key old : string) : string :=
  let v := Getenv env key in
  if String.eqb v "" then old else v.

Definition envFlag (env : Env) (key : string) (old : bool) : bool :=
  let v := Getenv env key in
  if String.eqb v "" then old else String.eqb v "true".

Definition envNumber (parse : string → option Z) (env : Env) (key : string)
    (old : Z) : Z :=
  let v := Getenv env key in
  if String.eqb v "" then old
  else match parse v with
       | Some x => x
       | None => old
       end.

(** ** The HTTP layer (packages [handlers] and [middleware]) *)

(** What a handler writes to the body of a response. *)
Inductive Payload :=
  | ErrorJSON (message : string)       (* [{"error": message}] *)
  | ResultJSON (result : Result)       (* a result of [AnalyzeURL] *)
  | FailureJSON (url error : string)   (* [Result{URL: url, Error: error}] *)
  | PlainText (message : string).      (* the line that [http.Error] prints *)

(** How the writes to an [http.ResponseWriter] fare.  A write that fails
    returns an error and leaves nothing in the body; the writer has either
    sent the status line and the headers by then, as the server's own
    writer has when the connection is lost, or it has not touched them, as
    a writer that refuses the body. *)
Inductive Health :=
  | Healthy
  | FailsAfterHeader
  | FailsBeforeHeader.

(** An [http.ResponseWriter].  [sent] is the status line and the headers
    once they have gone out: the header map can still be changed
    afterwards, to no effect. *)
Record ResponseWriter := mkWriter {
  header : gmap string string;
  sent : option (Z * gmap string string);
  written : list Payload;
  health : Health
}.

Definition newWriterOf (h : Health) : ResponseWriter := mkWriter ∅ None [] h.

(** A writer whose writes succeed, as an [httptest.ResponseRecorder]. *)
Definition newWriter : ResponseWriter := newWriterOf Healthy.

(** [w.Header().Set(key, value)] *)
Definition Header_Set (key value : string) (w : ResponseWriter)
    : ResponseWriter :=
  mkWriter (<[key := value]> (header w)) (sent w) (written w) (health w).

(** [w.Header().Del(key)] *)
Definition Header_Del (key : string) (w : ResponseWriter) : ResponseWriter :=
  mkWriter (delete key (header w)) (sent w) (written w) (health w).

(** [w.WriteHeader(statusCode)]; a second call is ignored. *)
Definition WriteHeader (statusCode : Z) (w : ResponseWriter)
    : ResponseWriter :=
  match sent w with
  | Some _ => w
  | None =>
      mkWriter (header w) (Some (statusCode, header w)) (written w) (health w)
  end.

(** [w.Write]: sends the status 200 first when no status was sent.  The
    second component tells whether the error is non-nil. *)
Definition Write (p : Payload) (w : ResponseWriter) : ResponseWriter * bool :=
  match health w with
  | Healthy =>
      let w := WriteHeader 200 w in
      (mkWriter (header w) (sent w) (written w ++ [p]) (health w), false)
  | FailsAfterHeader => (WriteHeader 200 w, true)
  | FailsBeforeHeader => (w, true)
  end.

(** [http.Error] *)
Definition http_Error (w : ResponseWriter) (error : string) (code : Z)
    : ResponseWriter :=
  let w := Header_Del "Content-Length" w in
  let w := Header_Set "Content-Type" "text/plain; charset=utf-8" w in
  let w := Header_Set "X-Content-Type-Options" "nosniff" w in
  let w := WriteHeader code w in
  fst (Write (PlainText error) w).

(** [http.Request], as far as the handlers read it. *)
Record Request := mkRequest {
  ReqMethod : string;
  ReqPath : string;
  ReqBody : string
}.

(** [writeErrorResponse] *)
Definition writeErrorResponse (w : ResponseWriter) (statusCode : Z)
    (message : string) : ResponseWriter :=
  let w := Header_Set "Content-Type" "application/json" w in
  let w := WriteHeader statusCode w in
  fst (Write (ErrorJSON message) w).

(** [getStatusClass] of the metrics middleware. *)
Definition getStatusClass (statusCode : Z) : string :=
  if ((statusCode >=? 200) && (statusCode <? 300))%Z then "success"
  else if ((statusCode >=? 400) && (statusCode <? 500))%Z then "client_error"
  else if (statusCode >=? 500)%Z then "server_error"
  else "unknown".

(** A handler; [None] when the schedule of the link checks that the
    request triggers is not a complete execution. *)
Definition Handler := ResponseWriter → Request → option ResponseWriter.


Section Handlers.
Context `{L : GoLib}.
Variable config : AnalyzerConfig.
Variable net : Network.
(** [json.NewDecoder(r.Body).Decode(&req)]: [None] is an error, otherwise
    [req.URL], which is empty when the body has no such key. *)
Variable decodeRequest : string → option string.
(** The text of the library's error that [AnalyzeURL] wraps. *)
Variable causeText : AnalyzeError → string.

(** [err.Error()] of the error that [AnalyzeURL] returns. *)
Definition errorText (e : AnalyzeError) : string :=
  match e with
  | InvalidURL => "invalid URL: " +:+ causeText e
  | FetchFailed _ => "failed to fetch HTML: " +:+ causeText e
  end.

(** [ServeAnalyze].  [ctxDone0] tells whether the context of the request
    is done when [AnalyzeURL] is called, and [sched] is the execution of
    the link checks.  A [Result] always encodes, so that [Encode] returns
    an error exactly when the write does. *)
Definition ServeAnalyze (ctxDone0 : bool) (sched : list Event) : Handler :=
  λ w r,
  if negb (String.eqb (ReqMethod r) "POST") then
    Some (writeErrorResponse w 405 "Method not allowed")
  else
    match decodeRequest (ReqBody r) with
    | None => Some (writeErrorResponse w 400 "Invalid request")
    | Some url =>
        if String.eqb url "" then
          Some (writeErrorResponse w 400 "URL is required")
        else
          match AnalyzeURL config net ctxDone0 url sched with
          | None => None
          | Some outcome =>
              let payload :=
                match outcome with
                | inl err => FailureJSON url (errorText err)
                | inr result => ResultJSON result
                end in
              let w := Header_Set "Content-Type" "application/json" w in
              let (w, err) := Write payload w in
              if err then Some (http_Error w "Internal server error" 500)
              else Some w
          end
    end.

End Handlers.

(** Instances of the loader's and the handlers' library functions. *)
Module Deployment.

Definition digit (c : ascii) : option Z :=
  let n := Z.of_nat (nat_of_ascii c) in
  if ((48 <=? n) && (n <=? 57))%Z then Some (n - 48)%Z else None.

Fixpoint digits (s : string) (acc : Z) : option Z :=
  match s with
  | EmptyString => Some acc
  | String c s' =>
      match digit c with
      | Some d => digits s' (10 * acc + d)%Z
      | None => None
      end
  end.

Definition unsigned (s : string) : option Z :=
  match s with
  | EmptyString => None
  | _ => digits s 0
  end.

(** [strconv.Atoi] on a 64-bit platform. *)
Definition Atoi (s : string) : option Z :=
  let value :=
    match s with
    | String "-"%char s' => option_map Z.opp (unsigned s')
    | String "+"%char s' => unsigned s'
    | _ => unsigned s
    end in
  match value with
  | Some v =>
      if ((- 2 ^ 63 <=? v) && (v <? 2 ^ 63))%Z then Some v else None
  | None => None
  end.

Fixpoint seconds (s : string) (acc : Z) : option Z :=
  match s with
  | EmptyString => None
  | String "s"%char EmptyString => Some (acc * second)%Z
  | String c s' =>
      match digit c with
      | Some d => seconds s' (10 * acc + d)%Z
      | None => None
      end
  end.

(** [time.ParseDuration], cut down to a whole number of seconds, [30s];
    every other string is taken to be malformed. *)
Definition ParseDuration (s : string) : option Z :=
  match s with
  | String c _ =>
      match digit c with
      | Some _ => seconds s 0
      | None => None
      end
  | EmptyString => None
  end.

(** No configuration file exists. *)
Definition noFiles : string → option string := λ _, None.

(** A parser of configuration files that sets the port it is given. *)
Definition portOnly (configData : string) (config : Config) : Config * bool :=
  (setPort configData config, false).

(** A request body is the address itself. *)
Definition plainBody (body : string) : option string := Some body.

Definition causeText (e : AnalyzeError) : string := "".

End Deployment.

(** * Properties *)

(** ** Trees and folds *)

(** Induction on trees, with the hypothesis for every child. *)
Lemma Node_ind_children (P : Node → Prop) :
  (∀ t d a cs, Forall P cs → P (mkNode t d a cs)) → ∀ n, P n.
Proof.
  intros step. fix IH 1. intros [t d a cs]. apply step.
  induction cs as [|c cs IHcs]; constructor; [apply IH | exact IHcs].
Qed.

Lemma preorder_descendants n : preorder n = n :: descendants n.
Proof. by destruct n. Qed.

(** A walk that visits a node and then its children in order visits the
    nodes in document order. *)
Lemma fold_children {A} (f v : Node → A → A) cs :
  Forall (λ c, ∀ a, f c a = fold_left (λ a m, v m a) (preorder c) a) cs →
  ∀ a, fold_left (λ a c, f c a) cs a
       = fold_left (λ a m, v m a) (flat_map preorder cs) a.
Proof.
  induction 1 as [|c cs Hc _ IH]; intros a; simpl; [done|].
  rewrite fold_left_app, <- Hc. apply IH.
Qed.

Lemma last_cons_default {A} (x : A) l d :
  default d (last (x :: l)) = default x (last l).
Proof.
  revert x d. induction l as [|y l IH]; intros x d; [done|].
  change (last (x :: y :: l)) with (last (y :: l)). by rewrite !IH.
Qed.

(** A field that some nodes overwrite holds what the last of them wrote. *)
Lemma fold_last_wins {A B C} (v : A → B → B) (get : B → C)
    (sel : A → option C) :
  (∀ m r, get (v m r) = default (get r) (sel m)) →
  ∀ l r, get (fold_left (λ r m, v m r) l r)
         = default (get r) (last (omap sel l)).
Proof.
  intros Hv. induction l as [|m l IH]; intros r; simpl; [done|].
  rewrite IH, Hv. destruct (sel m) as [c|]; simpl; [|done].
  by rewrite last_cons_default.
Qed.

(** A counter that some nodes increment counts those nodes. *)
Lemma fold_counts {A B} (v : A → B → B) (get : B → nat) (p : A → bool) :
  (∀ m r, get (v m r) = get r + (if p m then 1 else 0)) →
  ∀ l r, get (fold_left (λ r m, v m r) l r) = get r + countb p l.
Proof.
  intros Hv. induction l as [|m l IH]; intros r; simpl; [lia|].
  rewrite IH, Hv. lia.
Qed.

(** A flag that some nodes raise is raised when one of them occurs. *)
Lemma fold_flag {A B} (v : A → B → B) (get : B → bool) (p : A → bool) :
  (∀ m r, get (v m r) = get r || p m) →
  ∀ l r, get (fold_left (λ r m, v m r) l r) = get r || existsb p l.
Proof.
  intros Hv. induction l as [|m l IH]; intros r; simpl.
  - by rewrite orb_false_r.
  - by rewrite IH, Hv, orb_assoc.
Qed.

Lemma countb_le {A} (p q : A → bool) l :
  (∀ x, p x = true → q x = true) → countb p l ≤ countb q l.
Proof.
  intros Hpq. induction l as [|x l IH]; simpl; [lia|].
  specialize (Hpq x).
  destruct (p x), (q x); first [lia | by specialize (Hpq eq_refl)].
Qed.

Lemma countb_omap_length {A B} (f : A → option B) l :
  length (omap f l) = countb (λ x, match f x with Some _ => true | None => false end) l.
Proof.
  induction l as [|x l IH]; csimpl; [done|].
  destruct (f x); csimpl; by rewrite IH.
Qed.

Lemma existsb_pointwise {A} (p q : A → bool) l :
  (∀ x, p x = q x) → existsb p l = existsb q l.
Proof.
  intros Hpq. induction l as [|x l IH]; simpl; [done|]. by rewrite Hpq, IH.
Qed.

(** ** Strings *)

Lemma Contains_xhtml_not_html s : Contains s "xhtml" = true → s ≠ "html".
Proof. intros H ->. vm_compute in H. discriminate. Qed.

Lemma Contains_html4_not_html s : Contains s "html 4" = true → s ≠ "html".
Proof. intros H ->. vm_compute in H. discriminate. Qed.

Lemma isHeadingTag_cases tag :
  isHeadingTag tag = true ↔ tag ∈ ["h1"; "h2"; "h3"; "h4"; "h5"; "h6"].
Proof.
  unfold isHeadingTag. rewrite !orb_true_iff, !String.eqb_eq.
  rewrite !elem_of_cons, elem_of_nil. tauto.
Qed.

Section DocumentAnalyzer.
Context `{L : GoLib}.

(** ** The three walks visit the nodes in document order *)

Lemma traverseNode_preorder baseURL n :
  ∀ result, traverseNode n result baseURL
    = fold_left (λ r m, traverseNode_visit m r baseURL) (preorder n) result.
Proof.
  induction n as [t d a cs IH] using Node_ind_children; intros result.
  exact (fold_children (λ c r, traverseNode c r baseURL)
           (λ m r, traverseNode_visit m r baseURL) cs IH _).
Qed.

Lemma checkFormFields_preorder n :
  ∀ flags, checkFormFields n flags
    = fold_left (λ fl m, checkFormFields_visit m fl) (preorder n) flags.
Proof.
  induction n as [t d a cs IH] using Node_ind_children; intros flags.
  exact (fold_children checkFormFields checkFormFields_visit cs IH _).
Qed.

Lemma extractLinksFromNode_preorder baseURL n :
  ∀ links, extractLinksFromNode n baseURL links
    = fold_left (λ ls m, extractLinks_visit baseURL m ls) (preorder n) links.
Proof.
  induction n as [t d a cs IH] using Node_ind_children; intros links.
  exact (fold_children (λ c ls, extractLinksFromNode c baseURL ls)
           (extractLinks_visit baseURL) cs IH _).
Qed.

(** ** What one visit changes *)

Lemma processLink_loop_spec attrs result baseURL :
  processLink_loop attrs result baseURL
  = match firstParsedHref attrs with
    | None => result
    | Some u =>
        if String.eqb (Host (ResolveReference baseURL u)) (Host baseURL)
        then setInternalLinks (S (InternalLinks result)) result
        else setExternalLinks (S (ExternalLinks result)) result
    end.
Proof.
  induction attrs as [|attr rest IH]; simpl; [done|].
  destruct (String.eqb (Key attr) "href"); [|done].
  by destruct (url_Parse (Val attr)).
Qed.

Lemma extractLinks_loop_spec attrs baseURL links :
  extractLinks_loop attrs baseURL links
  = match firstParsedHref attrs with
    | None => links
    | Some u =>
        if isHTTPScheme (Scheme (ResolveReference baseURL u))
        then links ++ [URL_String (ResolveReference baseURL u)]
        else links
    end.
Proof.
  induction attrs as [|attr rest IH]; simpl; [done|].
  destruct (String.eqb (Key attr) "href"); [|done].
  by destruct (url_Parse (Val attr)).
Qed.

(** Splits a visit into the branches of its [switch]. *)
Ltac visit_cases n :=
  unfold traverseNode_visit, hasTag, isElement, isDoctype, processLink;
  rewrite ?processLink_loop_spec;
  destruct (NType n); simpl; try done;
  repeat match goal with
  | |- context [String.eqb ?a ?b] =>
      let E := fresh "E" in
      destruct (String.eqb a b) eqn:E;
      [apply String.eqb_eq in E | apply String.eqb_neq in E]
  | |- context [isHeadingTag ?a] =>
      let E := fresh "E" in destruct (isHeadingTag a) eqn:E
  | |- context [FirstChild ?a] => destruct (FirstChild a)
  | |- context [isText ?a] => destruct (isText a)
  | |- context [isLoginForm ?a] => destruct (isLoginForm a)
  | |- context [firstParsedHref ?a] => destruct (firstParsedHref a)
  end; simpl; try done.

(** Two tests on the tag that cannot both succeed. *)
Ltac tag_clash :=
  match goal with
  | H : ToLower ?d = _, H' : ToLower ?d = _ |- _ =>
      rewrite H in H'; discriminate
  | H : ToLower ?d = _, H' : ToLower ?d ≠ _ |- _ => rewrite H in H'; done
  | H : ToLower ?d = _, H' : isHeadingTag (ToLower ?d) = _ |- _ =>
      rewrite H in H'; discriminate
  end.

Lemma visit_Title n result baseURL :
  Title (traverseNode_visit n result baseURL)
  = default (Title result) (titleText n).
Proof. unfold titleText. visit_cases n. Qed.

Lemma visit_HTMLVersion n result baseURL :
  HTMLVersion (traverseNode_visit n result baseURL)
  = default (HTMLVersion result) (detectHTMLVersion <$> doctypeLiteral n).
Proof. unfold doctypeLiteral. visit_cases n. Qed.

Lemma visit_Headings n result baseURL :
  Headings (traverseNode_visit n result baseURL)
  = match headingKey n with
    | Some key => headingIncr (Headings result) key
    | None => Headings result
    end.
Proof.
  unfold headingKey. visit_cases n; tag_clash.
Qed.

Lemma visit_InternalLinks n result baseURL :
  InternalLinks (traverseNode_visit n result baseURL)
  = InternalLinks result + (if internalAnchor baseURL n then 1 else 0).
Proof.
  unfold internalAnchor. visit_cases n; try lia; try tag_clash.
Qed.

Lemma visit_ExternalLinks n result baseURL :
  ExternalLinks (traverseNode_visit n result baseURL)
  = ExternalLinks result + (if externalAnchor baseURL n then 1 else 0).
Proof.
  unfold externalAnchor. visit_cases n; try lia; try tag_clash.
Qed.

Lemma classifiedAnchor_split baseURL n :
  (if classifiedAnchor n then 1 else 0)
  = (if internalAnchor baseURL n then 1 else 0)
    + (if externalAnchor baseURL n then 1 else 0).
Proof.
  unfold classifiedAnchor, internalAnchor, externalAnchor.
  destruct (hasTag "a" n); simpl; [|done].
  destruct (firstParsedHref (Attr n)) as [u|].
  - rewrite bool_decide_eq_true_2 by eauto. by destruct (String.eqb _ _).
  - rewrite bool_decide_eq_false_2; [done|]. by intros [? ?].
Qed.

Lemma visit_links n result baseURL :
  InternalLinks (traverseNode_visit n result baseURL)
  + ExternalLinks (traverseNode_visit n result baseURL)
  = InternalLinks result + ExternalLinks result
    + (if classifiedAnchor n then 1 else 0).
Proof.
  rewrite visit_InternalLinks, visit_ExternalLinks.
  rewrite (classifiedAnchor_split baseURL). lia.
Qed.

Lemma visit_HasLoginForm n result baseURL :
  HasLoginForm (traverseNode_visit n result baseURL)
  = HasLoginForm result || (hasTag "form" n && isLoginForm n).
Proof.
  visit_cases n; rewrite ?orb_false_r, ?orb_true_r; try done; tag_clash.
Qed.

Lemma visit_extract baseURL n links :
  extractLinks_visit baseURL n links
  = links ++ option_list (probeTarget baseURL n).
Proof.
  unfold extractLinks_visit, probeTarget.
  destruct (isElement n && String.eqb (Data n) "a"); simpl.
  - rewrite extractLinks_loop_spec.
    destruct (firstParsedHref (Attr n)) as [u|]; simpl.
    + destruct (isHTTPScheme _); simpl; by rewrite ?app_nil_r.
    + by rewrite app_nil_r.
  - by rewrite app_nil_r.
Qed.

(** ** The result of a whole traversal, field by field *)

Lemma traverse_Title doc result baseURL :
  Title (traverseNode doc result baseURL)
  = default (Title result) (last (omap titleText (preorder doc))).
Proof.
  rewrite traverseNode_preorder.
  apply (fold_last_wins (λ m r, traverseNode_visit m r baseURL) Title).
  intros. apply visit_Title.
Qed.

Lemma traverse_HTMLVersion doc result baseURL :
  HTMLVersion (traverseNode doc result baseURL)
  = default (HTMLVersion result)
      (detectHTMLVersion <$> last (omap doctypeLiteral (preorder doc))).
Proof.
  rewrite traverseNode_preorder.
  rewrite (fold_last_wins (λ m r, traverseNode_visit m r baseURL) HTMLVersion
             (λ m, detectHTMLVersion <$> doctypeLiteral m))
    by (intros; apply visit_HTMLVersion).
  by rewrite <- list_fmap_omap, fmap_last.
Qed.

Lemma traverse_links doc result baseURL :
  InternalLinks (traverseNode doc result baseURL)
  + ExternalLinks (traverseNode doc result baseURL)
  = InternalLinks result + ExternalLinks result
    + countb classifiedAnchor (preorder doc).
Proof.
  rewrite traverseNode_preorder.
  apply (fold_counts (λ m r, traverseNode_visit m r baseURL)
           (λ r, InternalLinks r + ExternalLinks r)).
  intros. apply visit_links.
Qed.

Lemma traverse_InternalLinks doc result baseURL :
  InternalLinks (traverseNode doc result baseURL)
  = InternalLinks result + countb (internalAnchor baseURL) (preorder doc).
Proof.
  rewrite traverseNode_preorder.
  apply (fold_counts (λ m r, traverseNode_visit m r baseURL) InternalLinks).
  intros. apply visit_InternalLinks.
Qed.

Lemma traverse_ExternalLinks doc result baseURL :
  ExternalLinks (traverseNode doc result baseURL)
  = ExternalLinks result + countb (externalAnchor baseURL) (preorder doc).
Proof.
  rewrite traverseNode_preorder.
  apply (fold_counts (λ m r, traverseNode_visit m r baseURL) ExternalLinks).
  intros. apply visit_ExternalLinks.
Qed.

Lemma traverse_HasLoginForm doc result baseURL :
  HasLoginForm (traverseNode doc result baseURL)
  = HasLoginForm result
    || existsb (λ m, hasTag "form" m && isLoginForm m) (preorder doc).
Proof.
  rewrite traverseNode_preorder.
  apply (fold_flag (λ m r, traverseNode_visit m r baseURL) HasLoginForm).
  intros. apply visit_HasLoginForm.
Qed.

Lemma extractLinksFromNode_spec doc baseURL links :
  extractLinksFromNode doc baseURL links
  = links ++ omap (probeTarget baseURL) (preorder doc).
Proof.
  rewrite extractLinksFromNode_preorder. revert links.
  induction (preorder doc) as [|m l IH]; intros links; csimpl.
  - by rewrite app_nil_r.
  - rewrite IH, visit_extract, <- app_assoc. f_equal.
    by destruct (probeTarget baseURL m).
Qed.

(** ** Heading counts *)

Lemma headingIncr_count m key k :
  headingCount (headingIncr m key) k
  = headingCount m k + (if String.eqb key k then 1 else 0).
Proof.
  unfold headingIncr, headingCount.
  destruct (String.eqb key k) eqn:E.
  - apply String.eqb_eq in E as ->. rewrite lookup_insert_eq. simpl. lia.
  - apply String.eqb_neq in E. rewrite lookup_insert_ne by done. lia.
Qed.

Lemma headingIncr_present m key k :
  is_Some (headingIncr m key !! k) ↔ is_Some (m !! k) ∨ key = k.
Proof.
  unfold headingIncr. destruct (decide (key = k)) as [->|Hne].
  - rewrite lookup_insert_eq. split; [by right | by eauto].
  - rewrite lookup_insert_ne by done. split; [by left | by intros [?|?]].
Qed.

Lemma headingKey_hasTag n k :
  isHeadingTag k = true →
  hasTag k n = match headingKey n with
               | Some key => String.eqb key k
               | None => false
               end.
Proof.
  intros Hk. unfold hasTag, headingKey.
  destruct (isElement n); simpl; [|done].
  destruct (isHeadingTag (ToLower (Data n))) eqn:E; [done|].
  destruct (String.eqb (ToLower (Data n)) k) eqn:E'; [|done].
  apply String.eqb_eq in E'. congruence.
Qed.

Lemma traverse_headingCount doc result baseURL k :
  isHeadingTag k = true →
  headingCount (Headings (traverseNode doc result baseURL)) k
  = headingCount (Headings result) k + countb (hasTag k) (preorder doc).
Proof.
  intros Hk. rewrite traverseNode_preorder.
  apply (fold_counts (λ m r, traverseNode_visit m r baseURL)
           (λ r, headingCount (Headings r) k)).
  intros m r. rewrite visit_Headings, (headingKey_hasTag m k Hk).
  destruct (headingKey m); [apply headingIncr_count | lia].
Qed.

Lemma traverse_heading_present doc result baseURL k :
  isHeadingTag k = true →
  is_Some (Headings (traverseNode doc result baseURL) !! k)
  ↔ is_Some (Headings result !! k) ∨ 0 < countb (hasTag k) (preorder doc).
Proof.
  intros Hk. rewrite traverseNode_preorder. revert result.
  induction (preorder doc) as [|m l IH]; intros result; simpl.
  - split; [by left | intros [?|?]; [done|lia]].
  - rewrite IH, visit_Headings, (headingKey_hasTag m k Hk).
    destruct (headingKey m) as [key|].
    + rewrite headingIncr_present.
      destruct (String.eqb key k) eqn:E.
      * apply String.eqb_eq in E. split; [right; lia | by eauto].
      * apply String.eqb_neq in E. simpl. tauto.
    + simpl. tauto.
Qed.

(** ** Form fields *)

Lemma attrValue_snoc key attrs a :
  attrValue key (attrs ++ [a])
  = if String.eqb (Key a) key then Some (Val a) else attrValue key attrs.
Proof.
  unfold attrValue. rewrite filter_app, fmap_app.
  destruct (String.eqb (Key a) key) eqn:E.
  - apply String.eqb_eq in E.
    rewrite filter_cons_True by done. simpl. by rewrite last_snoc.
  - apply String.eqb_neq in E.
    rewrite filter_cons_False by done. simpl. by rewrite app_nil_r.
Qed.

Lemma inputAttrs_spec attrs :
  inputAttrs attrs
  = (default "" (ToLower <$> attrValue "type" attrs),
     default "" (ToLower <$> attrValue "name" attrs)).
Proof.
  unfold inputAttrs.
  induction attrs as [|a attrs IH] using rev_ind; [done|].
  rewrite fold_left_app. simpl. rewrite IH, !attrValue_snoc. simpl.
  by destruct (String.eqb (Key a) "type"), (String.eqb (Key a) "name").
Qed.

Lemma isPasswordInput_spec n :
  isInput n && isPasswordInput n = spec_passwordInput n.
Proof.
  unfold spec_passwordInput, isPasswordInput. rewrite inputAttrs_spec. simpl.
  by destruct (attrValue "type" (Attr n)).
Qed.

Lemma isUsernameInput_spec n :
  isInput n && isUsernameInput n = usernameInput n.
Proof.
  unfold usernameInput, isUsernameInput, nameIdentifiesUser.
  rewrite inputAttrs_spec. simpl. rewrite <- andb_assoc. f_equal.
  destruct (attrValue "name" (Attr n)) as [name|],
           (attrValue "type" (Attr n)) as [t|]; simpl; try done.
  - rewrite andb_comm. f_equal.
    by destruct (String.eqb (ToLower t) "text"),
                (String.eqb (ToLower t) "email"), (String.eqb (ToLower t) "").
  - by rewrite andb_true_r.
  - by rewrite andb_false_r.
Qed.

Lemma checkFormFields_flags n flags :
  checkFormFields n flags
  = (fst flags || existsb (λ m, isInput m && isPasswordInput m) (preorder n),
     snd flags || existsb (λ m, isInput m && isUsernameInput m) (preorder n)).
Proof.
  rewrite checkFormFields_preorder.
  rewrite (surjective_pairing (fold_left _ _ _)). f_equal.
  - apply (fold_flag checkFormFields_visit fst).
    intros m [p u]. unfold checkFormFields_visit.
    destruct (isInput m), (isPasswordInput m); simpl;
      by rewrite ?orb_true_r, ?orb_false_r.
  - apply (fold_flag checkFormFields_visit snd).
    intros m [p u]. unfold checkFormFields_visit.
    destruct (isInput m), (isUsernameInput m); simpl;
      by rewrite ?orb_true_r, ?orb_false_r.
Qed.

Lemma form_is_not_input n : hasTag "form" n = true → isInput n = false.
Proof.
  unfold hasTag, isInput. intros [_ Hform%String.eqb_eq]%andb_true_iff.
  destruct (isElement n); [simpl|done].
  destruct (String.eqb (Data n) "input") eqn:E; [|done].
  apply String.eqb_eq in E. rewrite E, ToLower_ascii in Hform by done.
  discriminate.
Qed.

Lemma isLoginForm_descendants form :
  hasTag "form" form = true →
  isLoginForm form
  = existsb spec_passwordInput (descendants form)
    && existsb usernameInput (descendants form).
Proof.
  intros Hform. unfold isLoginForm. rewrite checkFormFields_flags. simpl.
  rewrite preorder_descendants. simpl.
  rewrite (form_is_not_input _ Hform). simpl.
  f_equal; apply existsb_pointwise; intros m;
    [apply isPasswordInput_spec | apply isUsernameInput_spec].
Qed.

Lemma traverse_InaccessibleLinks doc result baseURL :
  InaccessibleLinks (traverseNode doc result baseURL)
  = InaccessibleLinks result.
Proof.
  rewrite traverseNode_preorder.
  rewrite (fold_counts (λ m r, traverseNode_visit m r baseURL)
             InaccessibleLinks (λ _, false)).
  - induction (preorder doc) as [|m l IH]; simpl; lia.
  - intros m r. rewrite Nat.add_0_r. visit_cases m.
Qed.

(** ** Anchors *)

Lemma visit_unparsed n result baseURL :
  firstParsedHref (Attr n) = None →
  InternalLinks (traverseNode_visit n result baseURL) = InternalLinks result
  ∧ ExternalLinks (traverseNode_visit n result baseURL)
    = ExternalLinks result.
Proof.
  intros Hnone. unfold traverseNode_visit, processLink.
  rewrite processLink_loop_spec, Hnone.
  destruct (NType n); simpl; try done.
  destruct (String.eqb _ "title");
    [destruct (FirstChild n) as [c|]; [destruct (isText c)|]; done|].
  destruct (isHeadingTag _); [done|].
  destruct (String.eqb _ "a"); [done|].
  destruct (String.eqb _ "form"); [by destruct (isLoginForm n) | done].
Qed.

Lemma probedAnchor_classified baseURL n :
  probedAnchor baseURL n = true → classifiedAnchor n = true.
Proof.
  unfold probedAnchor, probeTarget, classifiedAnchor, hasTag.
  destruct (isElement n); simpl; [|done].
  destruct (String.eqb (Data n) "a") eqn:E; [|done].
  apply String.eqb_eq in E. rewrite E, ToLower_ascii by done. simpl.
  destruct (firstParsedHref (Attr n)); [|done].
  intros _. by apply bool_decide_eq_true_2.
Qed.

(** Every address handed to the checker comes from an anchor that the
    traversal has classified. *)
Lemma extractLinks_le_classified doc baseURL :
  length (extractLinks doc baseURL) ≤ countb classifiedAnchor (preorder doc).
Proof.
  unfold extractLinks. rewrite extractLinksFromNode_spec. simpl.
  rewrite countb_omap_length.
  apply (countb_le (probedAnchor baseURL)), probedAnchor_classified.
Qed.

End DocumentAnalyzer.

(** ** The document analyzer: titles, headings, links, forms, version *)

(** C9.  A [title] element whose first child is a text node sets the title
    of the result to that text, trimmed.  After the analysis of a document
    the title is the one set by the last such element in document order, and
    it is empty when the document has none. *)
Theorem title_is_last_title_text `{L : GoLib} (doc : Node) (baseURL : URL)
    (targetURL : string) :
  (∀ n c result,
     hasTag "title" n = true → FirstChild n = Some c → isText c = true →
     Title (traverseNode_visit n result baseURL) = TrimSpace (Data c))
  ∧ Title (analyzeDocument doc (newResult targetURL) baseURL)
    = default "" (last (omap titleText (preorder doc)))
  ∧ (omap titleText (preorder doc) = [] →
     Title (analyzeDocument doc (newResult targetURL) baseURL) = "").
Proof.
  split; [|split].
  - intros n c result Htag Hc Htext.
    rewrite visit_Title. unfold titleText. by rewrite Htag, Hc, Htext.
  - apply traverse_Title.
  - intros Hnone. unfold analyzeDocument. by rewrite traverse_Title, Hnone.
Qed.

Lemma title_is_last_title_text_witness :
  let n := Samples.elem "title" [] [Samples.text "  T "] in
  Title (traverseNode_visit (L:=Samples.lib) n (newResult "u") Samples.base)
  = "T".
Proof.
  intros n.
  exact (proj1 (title_is_last_title_text (L:=Samples.lib) n Samples.base "u")
           n (Samples.text "  T ") (newResult "u") eq_refl eq_refl eq_refl).
Defined.

(** C2, as the code has it.  For every level h1..h6, reading the headings
    map at that level gives the number of elements with that tag in the
    document, nested ones included; a level is a key of the map exactly when
    at least one such element occurs. *)
Theorem headings_count_elements `{L : GoLib} (doc : Node) (baseURL : URL)
    (targetURL level : string) :
  level ∈ ["h1"; "h2"; "h3"; "h4"; "h5"; "h6"] →
  let result := analyzeDocument doc (newResult targetURL) baseURL in
  headingCount (Headings result) level = countb (hasTag level) (preorder doc)
  ∧ (is_Some (Headings result !! level)
     ↔ 0 < countb (hasTag level) (preorder doc)).
Proof.
  intros Hlevel%isHeadingTag_cases result. subst result.
  unfold analyzeDocument. split.
  - by rewrite traverse_headingCount.
  - rewrite traverse_heading_present by done. simpl.
    rewrite lookup_empty. split; [intros [[? ?]|?]; done | by right].
Qed.

Lemma headings_count_elements_witness :
  let result :=
    analyzeDocument (L:=Samples.lib) Samples.scenarioPage
                    (newResult "https://example.com") Samples.base in
  headingCount (Headings result) "h2" = 2
  ∧ is_Some (Headings result !! "h2").
Proof.
  intros result.
  destruct (headings_count_elements (L:=Samples.lib) Samples.scenarioPage
              Samples.base "https://example.com" "h2") as [Hcount Hkey].
  - set_solver.
  - split; [exact Hcount | apply Hkey; vm_compute; lia].
Defined.

(** C2, as stated, fails: the levels that do not occur in the page are not
    keys of the map. *)
Lemma headings_keys_counterexample :
  let result :=
    analyzeDocument (L:=Samples.lib) Samples.scenarioPage
                    (newResult "https://example.com") Samples.base in
  ¬ is_Some (Headings result !! "h3").
Proof. vm_compute. by intros [? ?]. Qed.

(** The branches of [detectHTMLVersion], in the order in which it tries
    them. *)
Lemma detectHTMLVersion_branches `{L : GoLib} (doctype : string) :
  let literal := ToLower (TrimSpace doctype) in
  (literal = "html" → detectHTMLVersion doctype = "HTML5")
  ∧ (Contains literal "xhtml" = true → detectHTMLVersion doctype = "XHTML")
  ∧ (Contains literal "xhtml" = false → Contains literal "html 4" = true →
     detectHTMLVersion doctype = "HTML 4.01")
  ∧ (Contains literal "xhtml" = false → Contains literal "html 4" = false →
     detectHTMLVersion doctype = "HTML5").
Proof.
  unfold detectHTMLVersion. cbv zeta. repeat split.
  - by intros ->.
  - intros Hx. rewrite Hx.
    apply Contains_xhtml_not_html, String.eqb_neq in Hx. by rewrite Hx.
  - intros Hx H4. rewrite Hx, H4.
    apply Contains_html4_not_html, String.eqb_neq in H4. by rewrite H4.
  - intros Hx H4. rewrite Hx, H4. by destruct (String.eqb _ _).
Qed.

(** C3, as the code has it.  After the analysis the version is the one that
    [detectHTMLVersion] derives from the literal of the last doctype node of
    the document, and it is the empty string when the document has no
    doctype node.  From a literal, trimmed and lowered, the version is HTML5
    when the literal is "html", else XHTML when it contains "xhtml", else
    HTML 4.01 when it contains "html 4", else HTML5. *)
Theorem html_version_of_document `{L : GoLib} (doc : Node) (baseURL : URL)
    (targetURL : string) :
  HTMLVersion (analyzeDocument doc (newResult targetURL) baseURL)
  = match last (omap doctypeLiteral (preorder doc)) with
    | Some literal => detectHTMLVersion literal
    | None => ""
    end
  ∧ ∀ doctype,
      let literal := ToLower (TrimSpace doctype) in
      (literal = "html" → detectHTMLVersion doctype = "HTML5")
      ∧ (Contains literal "xhtml" = true →
         detectHTMLVersion doctype = "XHTML")
      ∧ (Contains literal "xhtml" = false →
         Contains literal "html 4" = true →
         detectHTMLVersion doctype = "HTML 4.01")
      ∧ (Contains literal "xhtml" = false →
         Contains literal "html 4" = false →
         detectHTMLVersion doctype = "HTML5").
Proof.
  split; [|apply detectHTMLVersion_branches].
  unfold analyzeDocument. rewrite traverse_HTMLVersion.
  by destruct (last _).
Qed.

Lemma html_version_of_document_witness :
  detectHTMLVersion (L:=Samples.lib)
    "html PUBLIC -//W3C//DTD HTML 4.01//EN" = "HTML 4.01".
Proof.
  exact (proj1 (proj2 (proj2
    (proj2 (html_version_of_document (L:=Samples.lib) Samples.scenarioPage
              Samples.base "u")
       "html PUBLIC -//W3C//DTD HTML 4.01//EN"))) eq_refl eq_refl).
Defined.

(** C3, as stated, fails: a document without a doctype node is not given
    the version HTML5, its version stays empty. *)
Lemma html_version_counterexample :
  omap doctypeLiteral (preorder Samples.noDoctypePage) = []
  ∧ HTMLVersion (analyzeDocument (L:=Samples.lib) Samples.noDoctypePage
                   (newResult "https://example.com") Samples.base)
    ≠ "HTML5".
Proof. split; [reflexivity | vm_compute; discriminate]. Qed.

(** C10.  [detectHTMLVersion] returns HTML5, XHTML or "HTML 4.01" on every
    input, and tries "html", then "xhtml", then "html 4": a literal that
    contains both "xhtml" and "html 4" is XHTML. *)
Theorem detectHTMLVersion_total_and_ordered `{L : GoLib} (doctype : string) :
  let literal := ToLower (TrimSpace doctype) in
  (detectHTMLVersion doctype = "HTML5" ∨ detectHTMLVersion doctype = "XHTML"
   ∨ detectHTMLVersion doctype = "HTML 4.01")
  ∧ detectHTMLVersion doctype
    = (if String.eqb literal "html" then "HTML5"
       else if Contains literal "xhtml" then "XHTML"
       else if Contains literal "html 4" then "HTML 4.01"
       else "HTML5")
  ∧ (Contains literal "xhtml" = true → Contains literal "html 4" = true →
     detectHTMLVersion doctype = "XHTML").
Proof.
  cbv zeta. split; [|split].
  - unfold detectHTMLVersion.
    destruct (String.eqb _ _); [by left|].
    destruct (Contains _ "xhtml"); [by right; left|].
    destruct (Contains _ "html 4"); [by right; right | by left].
  - reflexivity.
  - intros Hx _. by apply detectHTMLVersion_branches.
Qed.

Lemma detectHTMLVersion_total_and_ordered_witness :
  detectHTMLVersion (L:=Samples.lib) "  XHTML 4  " = "XHTML".
Proof.
  exact (proj2 (proj2
    (detectHTMLVersion_total_and_ordered (L:=Samples.lib) "  XHTML 4  "))
    eq_refl eq_refl).
Defined.

(** C1, as the code has it.  The sum of the internal and external counters
    is the number of anchor elements that have an [href] attribute whose
    value parses, whatever scheme it resolves to: the internal counter
    counts those that resolve to the host of the page, the external counter
    the others.  The probe set holds the resolved address of those whose
    scheme resolves to HTTP or HTTPS.  An anchor without an [href] that
    parses changes neither counter and adds nothing to the probe set; an
    anchor whose [href] resolves to another scheme adds nothing to the probe
    set but adds one to a counter. *)
Theorem link_counters_count_parsed_anchors `{L : GoLib} (doc : Node)
    (baseURL : URL) (targetURL : string) :
  let result := analyzeDocument doc (newResult targetURL) baseURL in
  InternalLinks result + ExternalLinks result
  = countb classifiedAnchor (preorder doc)
  ∧ InternalLinks result = countb (internalAnchor baseURL) (preorder doc)
  ∧ ExternalLinks result = countb (externalAnchor baseURL) (preorder doc)
  ∧ extractLinks doc baseURL = omap (probeTarget baseURL) (preorder doc)
  ∧ (∀ n r links,
       firstParsedHref (Attr n) = None →
       InternalLinks (traverseNode_visit n r baseURL) = InternalLinks r
       ∧ ExternalLinks (traverseNode_visit n r baseURL) = ExternalLinks r
       ∧ extractLinks_visit baseURL n links = links)
  ∧ (∀ n u r links,
       hasTag "a" n = true →
       firstParsedHref (Attr n) = Some u →
       isHTTPScheme (Scheme (ResolveReference baseURL u)) = false →
       InternalLinks (traverseNode_visit n r baseURL)
       + ExternalLinks (traverseNode_visit n r baseURL)
       = S (InternalLinks r + ExternalLinks r)
       ∧ extractLinks_visit baseURL n links = links).
Proof.
  cbv zeta. unfold analyzeDocument, extractLinks.
  split; [by rewrite traverse_links|].
  split; [by rewrite traverse_InternalLinks|].
  split; [by rewrite traverse_ExternalLinks|].
  split; [by rewrite extractLinksFromNode_spec|].
  split.
  - intros n r links Hnone.
    destruct (visit_unparsed n r baseURL Hnone) as [Hint Hext].
    repeat split; [exact Hint | exact Hext |].
    rewrite visit_extract. unfold probeTarget. rewrite Hnone.
    destruct (_ && _); simpl; by rewrite app_nil_r.
  - intros n u r links Htag Hhref Hscheme. split.
    + rewrite visit_links. unfold classifiedAnchor.
      rewrite Htag, Hhref, bool_decide_eq_true_2 by eauto. simpl. lia.
    + rewrite visit_extract. unfold probeTarget. rewrite Hhref, Hscheme.
      destruct (_ && _); simpl; by rewrite app_nil_r.
Qed.

Lemma link_counters_count_parsed_anchors_witness :
  let n :=
    Samples.elem "a" [Samples.attr "href" "mailto:test@example.com"] [] in
  let r := traverseNode_visit (L:=Samples.lib) n (newResult "u") Samples.base in
  InternalLinks r + ExternalLinks r = 1
  ∧ extractLinks_visit (L:=Samples.lib) Samples.base n [] = [].
Proof.
  intros n r.
  exact (proj2 (proj2 (proj2 (proj2 (proj2
    (link_counters_count_parsed_anchors (L:=Samples.lib) n Samples.base
       "u")))))
    n _ (newResult "u") [] eq_refl eq_refl eq_refl).
Defined.

(** C1, as stated, fails: an anchor with a [mailto:] address resolves to no
    HTTP or HTTPS address, and yet it is counted as an external link. *)
Lemma link_counters_mailto_counterexample :
  let result :=
    analyzeDocument (L:=Samples.lib) Samples.mailPage
                    (newResult "https://example.com") Samples.base in
  countb (spec_linkAnchor (L:=Samples.lib) Samples.base)
         (preorder Samples.mailPage) = 0
  ∧ ExternalLinks result = 1
  ∧ InternalLinks result + ExternalLinks result
    ≠ countb (spec_linkAnchor (L:=Samples.lib) Samples.base)
             (preorder Samples.mailPage).
Proof. vm_compute. repeat split; lia. Qed.

(** C4, as the code has it.  A form is a login form exactly when one of its
    descendant inputs has type password and one of its descendant inputs
    has a name that contains "user", "email" or "login" while its type is
    absent, empty, "text" or "email", all compared without case, and with
    the last occurrence of a repeated attribute being the one that counts.
    A form that lacks one of the two is not a login form, and the flag of
    the page is the disjunction over its form elements. *)
Theorem login_form_classifier `{L : GoLib} (form : Node) :
  hasTag "form" form = true →
  isLoginForm form
  = existsb spec_passwordInput (descendants form)
    && existsb usernameInput (descendants form)
  ∧ (existsb usernameInput (descendants form) = false →
     isLoginForm form = false)
  ∧ (existsb spec_passwordInput (descendants form) = false →
     isLoginForm form = false)
  ∧ ∀ doc baseURL targetURL,
      HasLoginForm (analyzeDocument doc (newResult targetURL) baseURL)
      = existsb (λ n, hasTag "form" n && isLoginForm n) (preorder doc).
Proof.
  intros Hform. rewrite (isLoginForm_descendants form Hform). repeat split.
  - intros ->. apply andb_false_r.
  - by intros ->.
  - intros doc baseURL targetURL. unfold analyzeDocument.
    by rewrite traverse_HasLoginForm.
Qed.

Lemma login_form_classifier_witness :
  hasTag (L:=Samples.lib) "form" Samples.loginForm = true
  ∧ isLoginForm (L:=Samples.lib) Samples.loginForm = true.
Proof.
  split; [reflexivity|].
  exact (eq_trans
    (proj1 (login_form_classifier (L:=Samples.lib) Samples.loginForm eq_refl))
    eq_refl).
Defined.

(** C4, as stated, fails: an input whose [type] attribute is present and
    empty counts as the user field, although its type is neither absent nor
    "text" nor "email". *)
Lemma login_form_empty_type_counterexample :
  hasTag (L:=Samples.lib) "form" Samples.emptyTypeForm = true
  ∧ spec_loginForm (L:=Samples.lib) Samples.emptyTypeForm = false
  ∧ isLoginForm (L:=Samples.lib) Samples.emptyTypeForm = true.
Proof. by vm_compute. Qed.

(** ** The HTTP client and the worker pool *)

Lemma countb_le_length {A} (p : A → bool) l : countb p l ≤ length l.
Proof. induction l as [|x l IH]; simpl; [lia|]. destruct (p x); lia. Qed.

Lemma countb_replicate_false {A} (p : A → bool) x k :
  p x = false → countb p (replicate k x) = 0.
Proof. intros Hp. induction k as [|k IH]; simpl; [done|]. by rewrite Hp. Qed.

Lemma countb_insert {A} (p : A → bool) l i x y :
  l !! i = Some y →
  countb p (<[i:=x]> l) + (if p y then 1 else 0)
  = countb p l + (if p x then 1 else 0).
Proof.
  revert i. induction l as [|z l IH]; intros [|i] Hi; simplify_eq/=.
  - lia.
  - specialize (IH i Hi). lia.
Qed.

Lemma countb_app {A} (p : A → bool) l1 l2 :
  countb p (l1 ++ l2) = countb p l1 + countb p l2.
Proof. induction l1 as [|x l1 IH]; simpl; [done|]. rewrite IH. lia. Qed.

Lemma existsb_replicate_false {A} (p : A → bool) x k :
  p x = false → existsb p (replicate k x) = false.
Proof. intros Hp. induction k as [|k IH]; simpl; [done|]. by rewrite Hp. Qed.

Lemma existsb_insert_false {A} (p : A → bool) l i x :
  p x = false → existsb p (<[i:=x]> l) = true → existsb p l = true.
Proof.
  intros Hp. revert i. induction l as [|z l IH]; intros [|i]; simpl; try done.
  - rewrite Hp. simpl. intros ->. apply orb_true_r.
  - intros [->|H]%orb_true_iff; [done|]. rewrite (IH i H). apply orb_true_r.
Qed.

Lemma forallb_lookup {A} (p : A → bool) l i x :
  forallb p l = true → l !! i = Some x → p x = true.
Proof.
  revert i. induction l as [|z l IH]; intros [|i]; simpl; try done.
  - intros [? _]%andb_true_iff ?. by simplify_eq.
  - intros [_ ?]%andb_true_iff ?. by eapply IH.
Qed.

Lemma forallb_existsb {A} (p : A → bool) l :
  forallb p l = true → 0 < length l → existsb p l = true.
Proof. destruct l; simpl; [lia|]. by intros [-> _]%andb_true_iff. Qed.

Lemma forallb_countb_zero {A} (p q : A → bool) l :
  (∀ x, p x = true → q x = false) → forallb p l = true → countb q l = 0.
Proof.
  intros Hpq. induction l as [|x l IH]; simpl; [done|].
  intros [Hx Hl]%andb_true_iff. by rewrite (Hpq x Hx), IH.
Qed.

Lemma countb_map {A B} (f : A → B) (p : B → bool) l :
  countb p (map f l) = countb (λ x, p (f x)) l.
Proof. induction l as [|x l IH]; simpl; [done|]. by rewrite IH. Qed.

Section Prober.
Context `{L : GoLib}.
Variable config : AnalyzerConfig.
Variable net : Network.

(** *** Redirects *)


(** [Z.to_nat MaxRedirects] further redirects are enough: more fuel does
    not change what the client returns. *)
Lemma client_loop_fuel fuel1 fuel2 ctx m via u :
  (MaxRedirects config <= Z.of_nat (via + fuel1))%Z →
  (MaxRedirects config <= Z.of_nat (via + fuel2))%Z →
  client_loop config net fuel1 ctx m via u
  = client_loop config net fuel2 ctx m via u.
Proof.
  revert fuel2 via u.
  induction fuel1 as [|fuel1 IH]; intros [|fuel2] via u H1 H2; simpl;
    try reflexivity.
  all: destruct (isHTTPScheme (Scheme u)); simpl; [|done].
  all: destruct (String.eqb (Host u) ""); [done|].
  all: destruct ctx; [done|].
  all: destruct (net m (URL_String u)) as [f|code loc body]; [done|].
  all: destruct (redirectStatus code && negb (String.eqb loc "")); [|done].
  all: destruct (url_Parse loc) as [ref|]; [|done].
  all: unfold CheckRedirect;
    destruct (Z.geb_spec (Z.of_nat (S via)) (MaxRedirects config)); [done|].
  all: try lia.
  apply IH; lia.
Qed.


(** *** The invariants of the pool hold in every state *)

Lemma pool_init_inv ctx links :
  PoolInv (length links) (Z.to_nat (effectiveWorkers config links))
          (pool_init config ctx links).
Proof.
  split; simpl; try lia.
  - by rewrite length_replicate.
  - rewrite countb_replicate_false by done. lia.
Qed.

Lemma pool_step_inv total started s e s' :
  PoolInv total started s →
  pool_step config net s e = Some s' →
  PoolInv total started s'.
Proof.
  intros [Hw Hc Hr Hl] Hstep. destruct e; simpl in Hstep.
  - simplify_eq. by split.
  - destruct (jobsClosed s); [done|].
    destruct (pending s) as [|link rest] eqn:Hp; simplify_eq.
    split; simpl in *; rewrite ?length_app; simpl; try done; lia.
  - destruct (_ && _); simplify_eq. by split.
  - destruct (workers s !! w) as [[| |]|] eqn:Hws; try done.
    destruct (jobs s) as [|link rest] eqn:Hj; simplify_eq.
    pose proof (countb_insert isChecking _ _ (Checking link) _ Hws) as Hins.
    split; simpl in *; rewrite ?length_insert; try done; lia.
  - destruct (workers s !! w) as [[|link|]|] eqn:Hws; simplify_eq.
    pose proof (countb_insert isChecking _ _ Waiting _ Hws) as Hins.
    split; simpl in *; rewrite ?length_insert, ?length_app; simpl;
      try done; lia.
  - destruct (workers s !! w) as [[| |]|] eqn:Hws; try done.
    destruct (jobs s) eqn:Hj; [|done].
    destruct (jobsClosed s); simplify_eq.
    pose proof (countb_insert isChecking _ _ Exited _ Hws) as Hins.
    split; simpl in *; rewrite ?length_insert; try done; lia.
  - destruct (_ && _); simplify_eq. by split.
  - destruct (results s) as [|accessible rest] eqn:Hres; simplify_eq.
    split; simpl in *; try done; try lia.
    destruct accessible; lia.
Qed.

Lemma pool_run_inv total started sched :
  ∀ s s', PoolInv total started s →
          pool_run config net sched s = Some s' →
          PoolInv total started s'.
Proof.
  induction sched as [|e sched IH]; intros s s' Hinv Hrun; simpl in Hrun.
  - by simplify_eq.
  - destruct (pool_step config net s e) as [s1|] eqn:Hstep; [|done].
    eapply IH; [|exact Hrun]. by eapply pool_step_inv.
Qed.

(** What [checkLinksAccessibility] returns under any schedule. *)
Lemma checkLinksAccessibility_bounds ctx links sched count checks :
  checkLinksAccessibility config net ctx links sched = Some (count, checks) →
  count ≤ length checks ∧ length checks ≤ length links.
Proof.
  unfold checkLinksAccessibility.
  destruct (length links =? 0)%nat; [intros; simplify_eq/=; lia|].
  destruct (pool_run _ _ _ _) as [s|] eqn:Hrun; [|done].
  unfold collectorDone.
  destruct (resultsClosed s); simpl; [|done].
  destruct (results s) eqn:Hres; [|done]. intros ?; simplify_eq.
  destruct (pool_run_inv _ _ _ _ _ (pool_init_inv ctx links) Hrun)
    as [_ Hc Hr Hl].
  rewrite Hres in Hr. simpl in Hr. lia.
Qed.

(** *** While the context is live no failed check is lost *)

Lemma pool_init_live links : PoolLive config net links (pool_init config false links).
Proof.
  split; simpl; try done.
  - by rewrite existsb_replicate_false.
  - rewrite countb_replicate_false by done. unfold failing. simpl. lia.
Qed.

Lemma pool_step_live links s e s' :
  PoolLive config net links s →
  e ≠ EvCancel →
  pool_step config net s e = Some s' →
  PoolLive config net links s'.
Proof.
  intros [Hctx Hclosed Hexited Hdone Hcount Hlinks] He Hstep.
  unfold failing in *. destruct e; simpl in Hstep; [done|..].
  - destruct (jobsClosed s) eqn:Hjc; [done|].
    destruct (pending s) as [|link rest] eqn:Hp; simplify_eq.
    split; unfold failing; simpl in *; try done.
    + intros Hex. by destruct (Hexited Hex).
    + rewrite countb_app. simpl. lia.
  - destruct (jobsClosed s) eqn:Hjc; [done|]. rewrite Hctx in Hstep.
    destruct (pending s) eqn:Hp; simplify_eq/=.
    split; unfold failing; simpl in *; try done.
    intros Hex. by destruct (Hexited Hex).
  - destruct (workers s !! w) as [[| |]|] eqn:Hws; try done.
    destruct (jobs s) as [|link rest] eqn:Hj; simplify_eq.
    pose proof (countb_insert (isFailingCheck config net) _ _
                  (Checking link) _ Hws) as Hins.
    split; unfold failing; simpl in *; try done.
    + intros Hex%existsb_insert_false; [|done]. by destruct (Hexited Hex).
    + intros Hrc. by pose proof (forallb_lookup _ _ _ _ (Hdone Hrc) Hws).
    + destruct (checkSingleLink config net false link); simpl in *; lia.
  - destruct (workers s !! w) as [[|link|]|] eqn:Hws; simplify_eq.
    pose proof (countb_insert (isFailingCheck config net) _ _ Waiting _ Hws)
      as Hins.
    rewrite Hctx.
    split; unfold failing; simpl in *; try done.
    + intros Hex%existsb_insert_false; [|done]. by apply Hexited.
    + intros Hrc. by pose proof (forallb_lookup _ _ _ _ (Hdone Hrc) Hws).
    + rewrite !countb_app. simpl.
      destruct (checkSingleLink config net false link); simpl; lia.
    + rewrite countb_app. simpl.
      destruct (checkSingleLink config net false link); simpl in *; lia.
  - destruct (workers s !! w) as [[| |]|] eqn:Hws; try done.
    destruct (jobs s) eqn:Hj; [|done].
    destruct (jobsClosed s) eqn:Hjc; simplify_eq.
    pose proof (countb_insert (isFailingCheck config net) _ _ Exited _ Hws)
      as Hins.
    split; unfold failing; simpl in *; try done.
    + intros Hrc. by pose proof (forallb_lookup _ _ _ _ (Hdone Hrc) Hws).
    + lia.
  - destruct (resultsClosed s); [done|]. simpl in Hstep.
    destruct (allExited (workers s)) eqn:Hall; simplify_eq.
    by split.
  - destruct (results s) as [|accessible rest] eqn:Hres; simplify_eq.
    split; unfold failing; simpl in *; try done.
    destruct accessible; simpl in *; lia.
Qed.

Lemma pool_run_live links sched :
  Forall (λ e, e ≠ EvCancel) sched →
  ∀ s s', PoolLive config net links s →
          pool_run config net sched s = Some s' →
          PoolLive config net links s'.
Proof.
  induction 1 as [|e sched He _ IH]; intros s s' Hlive Hrun; simpl in Hrun.
  - by simplify_eq.
  - destruct (pool_step config net s e) as [s1|] eqn:Hstep; [|done].
    eapply IH; [|exact Hrun]. by eapply pool_step_live.
Qed.

(** Whatever the interleaving, a run that is not cancelled and has a worker
    checks every link once and returns the number of failed checks. *)
Lemma checkLinksAccessibility_exact links sched count checks :
  (1 <= MaxWorkers config)%Z →
  Forall (λ e, e ≠ EvCancel) sched →
  checkLinksAccessibility config net false links sched
  = Some (count, checks) →
  count = failing config net links ∧ length checks = length links.
Proof.
  intros HW Hsched. unfold checkLinksAccessibility.
  destruct links as [|link links]; [intros ?; simplify_eq/=; by split|].
  change (length (link :: links) =? 0)%nat with false. cbv iota.
  assert (0 < length (link :: links)) as Hlen by (simpl; lia). revert Hlen.
  generalize (link :: links). clear link links. intros links Hlen.
  destruct (pool_run _ _ _ _) as [s|] eqn:Hrun; [|done].
  unfold collectorDone.
  destruct (resultsClosed s) eqn:Hrc; simpl; [|done].
  destruct (results s) eqn:Hres; [|done]. intros ?; simplify_eq.
  destruct (pool_run_inv _ _ _ _ _ (pool_init_inv false links) Hrun)
    as [Hw _ Hr Hl].
  destruct (pool_run_live links sched Hsched _ _ (pool_init_live links) Hrun)
    as [_ Hclosed Hexited Hdone Hcount Hlinks].
  specialize (Hdone Hrc).
  assert (0 < length (workers s)) as Hstarted.
  { rewrite Hw. unfold effectiveWorkers.
    destruct (Z.gtb_spec (MaxWorkers config) (Z.of_nat (length links))); lia. }
  destruct (Hexited (forallb_existsb _ _ Hdone Hstarted)) as [Hjobs Hjc].
  rewrite (Hclosed Hjc), Hjobs in *. rewrite Hres in *.
  rewrite (forallb_countb_zero isExited isChecking) in Hl
    by (done || by intros []).
  rewrite (forallb_countb_zero isExited (isFailingCheck config net)) in Hlinks
    by (done || by intros []).
  unfold failing in *. simpl in *. lia.
Qed.

(** *** The sequential schedule runs to completion *)

Lemma pool_run_app sched1 sched2 :
  ∀ s, pool_run config net (sched1 ++ sched2) s
       = match pool_run config net sched1 s with
         | Some s' => pool_run config net sched2 s'
         | None => None
         end.
Proof.
  induction sched1 as [|e sched1 IH]; intros s; simpl; [done|].
  by destruct (pool_step config net s e).
Qed.

Lemma run_sends pend :
  ∀ jobs ws res rc pr ina cd prb,
    pool_run config net (replicate (length pend) EvSend)
      (mkPool pend jobs false ws res rc pr ina cd prb)
    = Some (mkPool [] (jobs ++ pend) false ws res rc pr ina cd prb).
Proof.
  induction pend as [|link pend IH]; intros; simpl.
  - by rewrite app_nil_r.
  - by rewrite IH, <- app_assoc.
Qed.

Lemma run_checks jobs :
  ∀ pend jc ws res rc pr ina cd prb,
    ws !! 0 = Some Waiting →
    pool_run config net
      (concat (replicate (length jobs) [EvReceive 0; EvChecked 0]))
      (mkPool pend jobs jc ws res rc pr ina cd prb)
    = Some (mkPool pend [] jc ws
              (res ++ map (checkSingleLink config net cd) jobs)
              rc pr ina cd (prb ++ jobs)).
Proof.
  induction jobs as [|link jobs IH]; intros pend jc ws res rc pr ina cd prb
    Hw.
  - simpl. by rewrite !app_nil_r.
  - destruct ws as [|w ws]; simplify_eq/=.
    rewrite IH by done. by rewrite <- !app_assoc.
Qed.

Lemma run_exits k :
  ∀ exited pend res rc pr ina cd prb,
    pool_run config net (map EvWorkerExit (seq (length exited) k))
      (mkPool pend [] true (exited ++ replicate k Waiting) res rc pr ina cd
              prb)
    = Some (mkPool pend [] true (exited ++ replicate k Exited) res rc pr ina
                   cd prb).
Proof.
  induction k as [|k IH]; intros exited pend res rc pr ina cd prb; [done|].
  simpl. rewrite list_lookup_middle by done. simpl.
  rewrite insert_app_r_alt, Nat.sub_diag by done. simpl.
  rewrite (cons_middle Exited exited (replicate k Waiting)), app_assoc.
  replace (S (length exited)) with (length (exited ++ [Exited]))
    by (rewrite length_app; simpl; lia).
  rewrite IH. by rewrite <- app_assoc.
Qed.

Lemma run_collects res :
  ∀ pend jobs jc ws rc pr ina cd prb,
    pool_run config net (replicate (length res) EvCollect)
      (mkPool pend jobs jc ws res rc pr ina cd prb)
    = Some (mkPool pend jobs jc ws [] rc (pr + length res)
                   (ina + countb negb res) cd prb).
Proof.
  induction res as [|b res IH]; intros; simpl.
  - by rewrite !Nat.add_0_r.
  - rewrite IH. do 2 f_equal; [lia|]. destruct b; simpl; lia.
Qed.

Lemma allExited_replicate k : allExited (replicate k Exited) = true.
Proof. induction k as [|k IH]; [done|exact IH]. Qed.

(** Under the sequential schedule the call returns: every link is checked
    once, in order, and the count is the number of links whose check
    failed; nothing is checked when no worker was started. *)
Lemma sequentialSchedule_returns ctx links :
  checkLinksAccessibility config net ctx links
    (sequentialSchedule config links)
  = Some (if (Z.to_nat (effectiveWorkers config links) =? 0)%nat
          then (0, [])
          else (countb (λ link, negb (checkSingleLink config net ctx link))
                       links, links)).
Proof.
  unfold checkLinksAccessibility, sequentialSchedule, pool_init.
  destruct links as [|link links];
    [simpl; by destruct (Z.to_nat _ =? 0)%nat|].
  change (length (link :: links) =? 0)%nat with false. cbv iota.
  generalize (link :: links). clear link links. intros links.
  rewrite pool_run_app, run_sends.
  rewrite pool_run_app. simpl (pool_run _ _ [EvSenderStop] _).
  destruct (Z.to_nat (effectiveWorkers config links)) as [|w].
  - reflexivity.
  - change (S w =? 0)%nat with false. cbv iota.
    rewrite pool_run_app, (run_checks links) by done.
    rewrite pool_run_app, (run_exits (S w) []).
    rewrite pool_run_app. simpl (pool_run _ _ [EvCloseResults] _).
    rewrite allExited_replicate. simpl (negb false && true). cbv iota.
    rewrite <- (length_map (checkSingleLink config net ctx) links).
    rewrite (run_collects (map (checkSingleLink config net ctx) links)).
    simpl. by rewrite countb_map.
Qed.

End Prober.

(** ** The accessibility checker and the whole analysis *)

Section Analysis.
Context `{L : GoLib}.
Variable config : AnalyzerConfig.
Variable net : Network.

(** [AnalyzeURL] in terms of the address it fetches. *)
Lemma AnalyzeURL_traced_spec ctx targetURL sched :
  AnalyzeURL_traced config net ctx targetURL sched
  = match spec_normalizedAddress targetURL with
    | None => Some (inl InvalidURL)
    | Some (address, parsedURL) =>
        match fetchHTML config net ctx address with
        | inl e => Some (inl (FetchFailed e))
        | inr doc =>
            let result :=
              analyzeDocument doc (setURL address (newResult targetURL))
                              parsedURL in
            let links := extractLinks doc parsedURL in
            if (0 <? length links)%nat then
              match checkLinksAccessibility config net ctx links sched with
              | Some (count, checks) =>
                  Some (inr (setInaccessibleLinks count result, checks))
              | None => None
              end
            else Some (inr (result, []))
        end
    end.
Proof.
  unfold AnalyzeURL_traced, spec_normalizedAddress.
  destruct (url_Parse targetURL) as [u|]; [|done].
  destruct (String.eqb (Scheme u) ""); [|done].
  by destruct (url_Parse ("http://" +:+ targetURL)).
Qed.

Lemma analyzeDocument_fresh doc address targetURL parsedURL :
  let result :=
    analyzeDocument doc (setURL address (newResult targetURL)) parsedURL in
  InaccessibleLinks result = 0
  ∧ InternalLinks result + ExternalLinks result
    = countb classifiedAnchor (preorder doc).
Proof.
  cbv zeta. unfold analyzeDocument.
  by rewrite traverse_InaccessibleLinks, traverse_links.
Qed.

Lemma setInaccessibleLinks_same result :
  InaccessibleLinks result = 0 → setInaccessibleLinks 0 result = result.
Proof. destruct result. simpl. by intros ->. Qed.

(** Both directions of one case of [fetchHTML_errors]. *)
Ltac solve_fetch :=
  split;
  [ intros ?; simplify_eq; try done; eauto 10
  | intros;
    repeat match goal with
           | H : ∃ _, _ |- _ => destruct H
           | H : _ ∧ _ |- _ => destruct H
           end;
    simplify_eq; congruence ].

Lemma fetchHTML_errors ctx address e :
  fetchHTML config net ctx address = inl e
  ↔ match e with
    | RequestError => NewRequestWithContext address = None
    | TransportError f =>
        ∃ req, NewRequestWithContext address = Some req
               ∧ client_Do config net ctx GET req = inl f
    | StatusError code =>
        ∃ req resp, NewRequestWithContext address = Some req
                    ∧ client_Do config net ctx GET req = inr resp
                    ∧ StatusCode resp = code ∧ code ≠ 200%Z
    | MarkupError =>
        ∃ req resp, NewRequestWithContext address = Some req
                    ∧ client_Do config net ctx GET req = inr resp
                    ∧ StatusCode resp = 200%Z
                    ∧ html_Parse (Body resp) = None
    end.
Proof.
  unfold fetchHTML.
  destruct (NewRequestWithContext address) as [req|] eqn:Hreq;
    [|destruct e; solve_fetch].
  destruct (client_Do config net ctx GET req) as [f|resp] eqn:Hdo;
    [destruct e; solve_fetch|].
  destruct (Z.eqb_spec (StatusCode resp) 200) as [H200|H200].
  - destruct (html_Parse (Body resp)) as [doc|] eqn:Hparse;
      destruct e; solve_fetch.
  - destruct e; solve_fetch.
Qed.

End Analysis.

(** C5, as the code has it.  An empty list of targets returns the count 0
    and checks nothing.  For a worker limit W of at least 1 and a list that
    is not empty, the number of workers is min(W, number of targets), at
    least 1 and at most the number of targets: in every state of the pool
    that many workers exist, so at most that many checks are in flight. *)
Theorem worker_count_is_min `{L : GoLib} (config : AnalyzerConfig)
    (net : Network) (links : list string) :
  (∀ ctx sched,
     checkLinksAccessibility config net ctx [] sched = Some (0, []))
  ∧ ((1 <= MaxWorkers config)%Z → links ≠ [] →
     effectiveWorkers config links
     = Z.min (MaxWorkers config) (Z.of_nat (length links))
     ∧ (1 <= effectiveWorkers config links <= Z.of_nat (length links))%Z
     ∧ ∀ ctx sched s,
         pool_run config net sched (pool_init config ctx links) = Some s →
         length (workers s) = Z.to_nat (effectiveWorkers config links)
         ∧ countb isChecking (workers s)
           ≤ Z.to_nat (effectiveWorkers config links)).
Proof.
  split; [done|]. intros HW Hlinks.
  assert (0 < length links) by (destruct links; [done | simpl; lia]).
  assert (Heff : effectiveWorkers config links
                 = Z.min (MaxWorkers config) (Z.of_nat (length links))).
  { unfold effectiveWorkers.
    destruct (Z.gtb_spec (MaxWorkers config) (Z.of_nat (length links))); lia. }
  split; [exact Heff|]. split; [lia|].
  intros ctx sched s Hrun.
  destruct (pool_run_inv config net _ _ _ _ _
              (pool_init_inv config ctx links) Hrun) as [Hw _ _ _].
  split; [exact Hw|]. rewrite <- Hw. apply countb_le_length.
Qed.

Lemma worker_count_is_min_witness :
  let links := ["https://example.com/x"; "https://ext.example"] in
  effectiveWorkers Samples.config links = 2%Z
  ∧ length (workers (pool_init Samples.config false links)) = 2.
Proof.
  intros links.
  destruct (proj2 (worker_count_is_min (L:=Samples.webLib) Samples.config
                     Samples.web links)) as (Hmin & _ & Hpool);
    [done | done |].
  split; [exact Hmin | exact (proj1 (Hpool false [] _ eq_refl))].
Defined.

(** C5, as stated, fails: with a worker limit of 0 no worker is started
    for a list that is not empty; the call returns 0 and checks nothing. *)
Lemma worker_count_zero_counterexample :
  let links := ["https://ext.example"] in
  effectiveWorkers Samples.noWorkers links = 0%Z
  ∧ workers (pool_init Samples.noWorkers false links) = []
  ∧ checkLinksAccessibility (L:=Samples.webLib) Samples.noWorkers Samples.web
      false links [EvSend; EvSenderStop; EvCloseResults] = Some (0, [])
  ∧ ¬ (1 <= effectiveWorkers Samples.noWorkers links)%Z.
Proof. vm_compute. repeat split. by intros ?. Qed.

(** ** The client and the redirect chains of the network *)

Section RedirectChains.
Context `{L : GoLib}.
Variable config : AnalyzerConfig.
Variable net : Network.


End RedirectChains.




(** C7.  [AnalyzeURL] returns an error, and then no result, exactly when the
    address is invalid or [fetchHTML] fails, and [fetchHTML] fails exactly
    on a request that cannot be built, a network failure, a status other
    than 200, or markup that does not parse.  When the page is fetched, no
    schedule of the link checks yields an error; the analysis returns the
    full result of the traversal (the sequential schedule shows that it
    does return), and unless the context is cancelled the failed checks are
    counted, all of them, whatever the interleaving of the workers. *)
Theorem analysis_fails_only_on_fetch `{L : GoLib} (config : AnalyzerConfig)
    (net : Network) (ctx : bool) (targetURL : string) :
  (∀ sched e,
     AnalyzeURL config net ctx targetURL sched = Some (inl e)
     ↔ (e = InvalidURL ∧ spec_normalizedAddress targetURL = None)
       ∨ ∃ address parsedURL cause,
           spec_normalizedAddress targetURL = Some (address, parsedURL)
           ∧ fetchHTML config net ctx address = inl cause
           ∧ e = FetchFailed cause)
  ∧ (∀ address cause,
       fetchHTML config net ctx address = inl cause
       ↔ match cause with
         | RequestError => NewRequestWithContext address = None
         | TransportError f =>
             ∃ req, NewRequestWithContext address = Some req
                    ∧ client_Do config net ctx GET req = inl f
         | StatusError code =>
             ∃ req resp, NewRequestWithContext address = Some req
                         ∧ client_Do config net ctx GET req = inr resp
                         ∧ StatusCode resp = code ∧ code ≠ 200%Z
         | MarkupError =>
             ∃ req resp, NewRequestWithContext address = Some req
                         ∧ client_Do config net ctx GET req = inr resp
                         ∧ StatusCode resp = 200%Z
                         ∧ html_Parse (Body resp) = None
         end)
  ∧ (∀ address parsedURL doc,
       spec_normalizedAddress targetURL = Some (address, parsedURL) →
       fetchHTML config net ctx address = inr doc →
       let links := extractLinks doc parsedURL in
       let failed :=
         if (Z.to_nat (effectiveWorkers config links) =? 0)%nat then 0
         else countb (λ link, negb (checkSingleLink config net ctx link))
                     links in
       AnalyzeURL config net ctx targetURL (sequentialSchedule config links)
       = Some (inr (setInaccessibleLinks failed
                      (analyzeDocument doc
                         (setURL address (newResult targetURL)) parsedURL))))
  ∧ (∀ sched result,
       ctx = false → (1 <= MaxWorkers config)%Z →
       Forall (λ e, e ≠ EvCancel) sched →
       AnalyzeURL config net ctx targetURL sched = Some (inr result) →
       ∃ address parsedURL doc,
         spec_normalizedAddress targetURL = Some (address, parsedURL)
         ∧ fetchHTML config net ctx address = inr doc
         ∧ result
           = setInaccessibleLinks
               (failing config net (extractLinks doc parsedURL))
               (analyzeDocument doc (setURL address (newResult targetURL))
                                parsedURL)).
Proof.
  split; [|split; [|split]].
  - intros sched e. unfold AnalyzeURL. rewrite AnalyzeURL_traced_spec.
    destruct (spec_normalizedAddress targetURL) as [[address parsedURL]|].
    2: { split; [intros ?; simplify_eq; by left|].
         intros [[-> _]|(? & ? & ? & ? & _)]; done. }
    destruct (fetchHTML config net ctx address) as [cause|doc] eqn:Hfetch.
    { split.
      - intros ?; simplify_eq. right. by exists address, parsedURL, cause.
      - intros [[_ ?]|(? & ? & ? & ? & ? & ->)]; [done|].
        simplify_eq. congruence. }
    cbv zeta. split.
    + destruct (0 <? _)%nat; [|done].
      by destruct (checkLinksAccessibility _ _ _ _ _) as [[? ?]|].
    + intros [[_ ?]|(? & ? & ? & ? & ? & ->)]; [done|].
      simplify_eq. congruence.
  - intros address cause. apply fetchHTML_errors.
  - intros address parsedURL doc Hnorm Hfetch links failed.
    unfold AnalyzeURL. rewrite AnalyzeURL_traced_spec, Hnorm, Hfetch.
    cbv zeta. fold links. rewrite sequentialSchedule_returns.
    destruct (Nat.ltb_spec 0 (length links)) as [Hlen|Hlen].
    + subst failed. by destruct (_ =? 0)%nat.
    + assert (links = []) as Hnil by (destruct links; [done | simpl in *; lia]).
      subst failed. rewrite Hnil. simpl.
      replace (if (Z.to_nat (effectiveWorkers config []) =? 0)%nat
               then 0 else 0) with 0 by (by destruct (_ =? 0)%nat).
      rewrite setInaccessibleLinks_same; [done|].
      apply analyzeDocument_fresh.
  - intros sched result -> HW Hsched. unfold AnalyzeURL.
    rewrite AnalyzeURL_traced_spec.
    destruct (spec_normalizedAddress targetURL) as [[address parsedURL]|];
      [|done].
    destruct (fetchHTML config net false address) as [cause|doc] eqn:Hfetch;
      [done|].
    cbv zeta. intros Hresult. exists address, parsedURL, doc.
    split; [done|]. split; [done|].
    destruct (Nat.ltb_spec 0 (length (extractLinks doc parsedURL)))
      as [Hlen|Hlen].
    + destruct (checkLinksAccessibility _ _ _ _ _) as [[count checks]|]
        eqn:Hcheck; [|done].
      apply checkLinksAccessibility_exact in Hcheck as [-> _]; [|done..].
      by simplify_eq.
    + destruct (extractLinks doc parsedURL); [|simpl in *; lia].
      simplify_eq. symmetry. apply setInaccessibleLinks_same.
      apply analyzeDocument_fresh.
Qed.

Lemma analysis_fails_only_on_fetch_witness :
  (∃ result,
     AnalyzeURL (L:=Samples.webLib) Samples.config Samples.web false
       "https://example.com"
       (sequentialSchedule Samples.config
          ["https://example.com/x"; "https://ext.example"])
     = Some (inr result)
     ∧ InaccessibleLinks result = 1)
  ∧ AnalyzeURL (L:=Samples.webLib) Samples.config Samples.web false
      "https://example.com/other" []
    = Some (inl (FetchFailed (StatusError 404))).
Proof.
  pose proof (analysis_fails_only_on_fetch (L:=Samples.webLib) Samples.config
                Samples.web false "https://example.com") as (_ & _ & Hok & _).
  pose proof (analysis_fails_only_on_fetch (L:=Samples.webLib) Samples.config
                Samples.web false "https://example.com/other") as (Herr & _).
  split.
  - eexists. split.
    + exact (Hok "https://example.com" Samples.base Samples.scenarioPage
               eq_refl eq_refl).
    + reflexivity.
  - apply Herr. right.
    exists "https://example.com/other",
      (mkURL "https" "" None "example.com" "/other" false "" ""),
      (StatusError 404).
    repeat split.
Defined.

(** C8.  In every analysis that returns a result, the count of unreachable
    links is at most the number of link checks that were made, which is at
    most the sum of the internal and external link counts. *)
Theorem unreachable_le_probed_le_links `{L : GoLib} (config : AnalyzerConfig)
    (net : Network) (ctx : bool) (targetURL : string) (sched : list Event)
    (result : Result) (checks : list string) :
  AnalyzeURL_traced config net ctx targetURL sched
  = Some (inr (result, checks)) →
  InaccessibleLinks result ≤ length checks
  ∧ length checks ≤ InternalLinks result + ExternalLinks result.
Proof.
  rewrite AnalyzeURL_traced_spec.
  destruct (spec_normalizedAddress targetURL) as [[address parsedURL]|];
    [|done].
  destruct (fetchHTML config net ctx address) as [cause|doc]; [done|].
  cbv zeta.
  destruct (analyzeDocument_fresh doc address targetURL parsedURL)
    as [Hzero Hsum].
  destruct (0 <? _)%nat.
  - destruct (checkLinksAccessibility _ _ _ _ _) as [[count checks']|]
      eqn:Hcheck; [|done].
    intros ?; simplify_eq.
    apply checkLinksAccessibility_bounds in Hcheck as [Hcount Hlen].
    pose proof (extractLinks_le_classified doc parsedURL).
    simpl. lia.
  - intros ?; simplify_eq. simpl. lia.
Qed.

Lemma unreachable_le_probed_le_links_witness :
  ∃ result checks,
    AnalyzeURL_traced (L:=Samples.webLib) Samples.config Samples.web false
      "https://example.com" Samples.interleaved
    = Some (inr (result, checks))
    ∧ InaccessibleLinks result = 1
    ∧ InaccessibleLinks result ≤ length checks
    ∧ length checks ≤ InternalLinks result + ExternalLinks result.
Proof.
  eexists _, _. split; [vm_compute; reflexivity|]. split; [reflexivity|].
  apply (unreachable_le_probed_le_links (L:=Samples.webLib) Samples.config
           Samples.web false "https://example.com" Samples.interleaved).
  vm_compute. reflexivity.
Defined.

(** * Further properties of the analyzer *)

(** ** What the traversal keeps *)

Section TraversalKeeps.
Context `{L : GoLib}.

(** A field that no visit touches is the same after the walk. *)
Lemma fold_keeps {A B C} (v : A → B → B) (get : B → C) :
  (∀ m r, get (v m r) = get r) →
  ∀ l r, get (fold_left (λ r m, v m r) l r) = get r.
Proof.
  intros Hv. induction l as [|m l IH]; intros r; simpl; [done|].
  by rewrite IH, Hv.
Qed.

(** A field whose new value depends on its old value and on the node
    alone. *)
Lemma fold_field {A B C} (v : A → B → B) (get : B → C) (g : C → A → C) :
  (∀ m r, get (v m r) = g (get r) m) →
  ∀ l r, get (fold_left (λ r m, v m r) l r) = fold_left g l (get r).
Proof.
  intros Hv. induction l as [|m l IH]; intros r; simpl; [done|].
  by rewrite IH, Hv.
Qed.

Lemma processLink_loop_keeps attrs result baseURL :
  let r' := processLink_loop attrs result baseURL in
  URL_ r' = URL_ result ∧ Error r' = Error result.
Proof.
  rewrite processLink_loop_spec.
  destruct (firstParsedHref attrs); [|done]. by destruct (String.eqb _ _).
Qed.

Lemma visit_keeps n result baseURL :
  let r' := traverseNode_visit n result baseURL in
  URL_ r' = URL_ result ∧ Error r' = Error result.
Proof.
  unfold traverseNode_visit, processLink.
  destruct (NType n); simpl; try done.
  destruct (String.eqb _ "title");
    [destruct (FirstChild n) as [c|]; [destruct (isText c)|]; done|].
  destruct (isHeadingTag _); [done|].
  destruct (String.eqb _ "a"); [apply processLink_loop_keeps|].
  destruct (String.eqb _ "form"); [by destruct (isLoginForm n) | done].
Qed.

Lemma traverse_Headings doc result baseURL :
  Headings (traverseNode doc result baseURL)
  = fold_left (λ m n, from_option (headingIncr m) m (headingKey n))
      (preorder doc) (Headings result).
Proof.
  rewrite traverseNode_preorder.
  apply (fold_field (λ m r, traverseNode_visit m r baseURL) Headings).
  intros m r. rewrite visit_Headings. by destruct (headingKey m).
Qed.

Lemma headingCount_incr_le m key k :
  headingCount m k ≤ headingCount (headingIncr m key) k.
Proof. rewrite headingIncr_count. lia. Qed.

Lemma headingKey_isHeadingTag n key :
  headingKey n = Some key → isHeadingTag key = true.
Proof.
  unfold headingKey. destruct (isElement n); simpl; [|done].
  destruct (isHeadingTag (ToLower (Data n))) eqn:E; [|done].
  by intros ?; simplify_eq.
Qed.

Lemma headingIncr_wellFormed m key :
  isHeadingTag key = true →
  headingsWellFormed m → headingsWellFormed (headingIncr m key).
Proof.
  intros Hkey Hm k v. unfold headingIncr.
  destruct (decide (key = k)) as [->|Hne].
  - rewrite lookup_insert_eq. intros ?; simplify_eq. split; [done|lia].
  - rewrite lookup_insert_ne by done. apply Hm.
Qed.

Lemma traverse_headingsWellFormed doc result baseURL :
  headingsWellFormed (Headings result) →
  headingsWellFormed (Headings (traverseNode doc result baseURL)).
Proof.
  rewrite traverse_Headings. generalize (Headings result).
  induction (preorder doc) as [|n l IH]; intros m Hm; simpl; [done|].
  apply IH. destruct (headingKey n) as [key|] eqn:Hkey; simpl; [|done].
  apply headingIncr_wellFormed; [|done]. by eapply headingKey_isHeadingTag.
Qed.

End TraversalKeeps.




(** X2.  After the analysis of a page every key of the headings map is one
    of h1..h6 and its value is positive: it is the number of elements of
    that level, and no entry holds a zero. *)
Theorem headings_entries_are_positive_levels `{L : GoLib} (doc : Node)
    (baseURL : URL) (targetURL key : string) (count : nat) :
  Headings (analyzeDocument doc (newResult targetURL) baseURL) !! key
  = Some count →
  key ∈ ["h1"; "h2"; "h3"; "h4"; "h5"; "h6"]
  ∧ 1 ≤ count
  ∧ count = countb (hasTag key) (preorder doc).
Proof.
  intros Hkey. unfold analyzeDocument in Hkey.
  destruct (traverse_headingsWellFormed doc (newResult targetURL) baseURL)
    with (key := key) (v := count) as [Htag Hpos]; [|done|].
  { intros k v. simpl. by rewrite lookup_empty. }
  split; [by apply isHeadingTag_cases|]. split; [done|].
  pose proof (traverse_headingCount doc (newResult targetURL) baseURL key Htag)
    as Hcount.
  unfold headingCount in Hcount. rewrite Hkey in Hcount.
  change (Headings (newResult targetURL)) with (∅ : gmap string nat) in Hcount.
  by rewrite lookup_empty in Hcount.
Qed.

Lemma headings_entries_are_positive_levels_witness :
  2 = countb (hasTag (L:=Samples.lib) "h2") (preorder Samples.scenarioPage).
Proof.
  exact (proj2 (proj2
    (headings_entries_are_positive_levels (L:=Samples.lib)
       Samples.scenarioPage Samples.base "https://example.com" "h2" 2
       eq_refl))).
Defined.

(** X3.  The address of the page matters to the link counters only: with
    two different base addresses the traversal yields the same title,
    version, headings and login flag. *)
Theorem base_address_affects_only_links `{L : GoLib} (doc : Node)
    (result : Result) (base1 base2 : URL) :
  let r1 := analyzeDocument doc result base1 in
  let r2 := analyzeDocument doc result base2 in
  Title r1 = Title r2
  ∧ HTMLVersion r1 = HTMLVersion r2
  ∧ Headings r1 = Headings r2
  ∧ HasLoginForm r1 = HasLoginForm r2
  ∧ InternalLinks r1 + ExternalLinks r1 = InternalLinks r2 + ExternalLinks r2.
Proof.
  cbv zeta. unfold analyzeDocument.
  by rewrite !traverse_Title, !traverse_HTMLVersion, !traverse_Headings,
    !traverse_HasLoginForm, !traverse_links.
Qed.

(** ** Links in document order *)

Lemma omap_flat_map {A B C} (f : B → option C) (g : A → list B) l :
  omap f (flat_map g l) = concat (map (λ x, omap f (g x)) l).
Proof.
  induction l as [|x l IH]; [done|]. simpl.
  by rewrite omap_app, IH.
Qed.

(** X4.  The probe set lists the links in document order: the links of a
    node are its own link, if it has one, followed by the links of its
    children, child after child; what was collected before is kept in
    front. *)
Theorem extractLinks_in_document_order `{L : GoLib} (n : Node)
    (baseURL : URL) (links : list string) :
  extractLinksFromNode n baseURL links
  = links ++ option_list (probeTarget baseURL n)
    ++ concat (map (λ c, extractLinks c baseURL) (Children n)).
Proof.
  rewrite extractLinksFromNode_spec, preorder_descendants. f_equal.
  unfold descendants, extractLinks.
  assert (map (λ c, extractLinksFromNode c baseURL []) (Children n)
          = map (λ c, omap (probeTarget baseURL) (preorder c)) (Children n))
    as ->.
  { apply map_ext. intros c. by rewrite extractLinksFromNode_spec. }
  rewrite <- omap_flat_map. csimpl.
  by destruct (probeTarget baseURL n).
Qed.

(** ** Forms *)

Section Forms.
Context `{L : GoLib}.

(** No input is both the password field and the user field. *)
Lemma password_input_is_no_username_input n :
  isPasswordInput n && isUsernameInput n = false.
Proof.
  unfold isPasswordInput, isUsernameInput.
  destruct (String.eqb (fst (inputAttrs (Attr n))) "password") eqn:E;
    [|done].
  apply String.eqb_eq in E. by rewrite E.
Qed.

Lemma two_fields_need_two_inputs (l : list Node) :
  existsb (λ m, isInput m && isPasswordInput m) l = true →
  existsb (λ m, isInput m && isUsernameInput m) l = true →
  2 ≤ countb isInput l.
Proof.
  induction l as [|m l IH]; simpl; [done|].
  pose proof (password_input_is_no_username_input m) as Hexcl.
  destruct (isInput m); simpl; [|by intros; apply IH].
  destruct (isPasswordInput m), (isUsernameInput m); simpl in *; try done.
  - intros _ Hu. enough (1 ≤ countb isInput l) by lia.
    clear IH. induction l as [|x l IH]; simpl in *; [done|].
    destruct (isInput x); simpl in *; [lia|]. by apply IH.
  - intros Hp _. enough (1 ≤ countb isInput l) by lia.
    clear IH. induction l as [|x l IH]; simpl in *; [done|].
    destruct (isInput x); simpl in *; [lia|]. by apply IH.
  - intros Hp Hu. specialize (IH Hp Hu). lia.
Qed.

End Forms.

(** X5.  One input cannot be the password field and the user field at
    once, so a form with at most one input element below it is never a
    login form. *)
Theorem single_input_form_is_no_login_form `{L : GoLib} (form : Node) :
  hasTag "form" form = true →
  countb isInput (descendants form) ≤ 1 →
  isLoginForm form = false.
Proof.
  intros Hform Hone. unfold isLoginForm. rewrite checkFormFields_flags.
  simpl. rewrite preorder_descendants. simpl.
  rewrite (form_is_not_input _ Hform). simpl.
  destruct (existsb (λ m, isInput m && isPasswordInput m) (descendants form))
    eqn:Hp; [|done].
  destruct (existsb (λ m, isInput m && isUsernameInput m) (descendants form))
    eqn:Hu; [|done].
  pose proof (two_fields_need_two_inputs _ Hp Hu). lia.
Qed.

Lemma single_input_form_is_no_login_form_witness :
  isLoginForm (L:=Samples.lib)
    (Samples.elem "form" []
       [Samples.elem "input"
          [Samples.attr "type" "password"; Samples.attr "name" "user"] []])
  = false.
Proof.
  apply (single_input_form_is_no_login_form (L:=Samples.lib));
    [reflexivity | simpl; lia].
Defined.

(** X6.  An anchor is classified and probed by its first [href] attribute
    that parses: the attributes that follow it are never looked at. *)
Theorem attributes_after_parsed_href_are_ignored `{L : GoLib}
    (before after : list Attribute) (attr : Attribute) (result : Result)
    (baseURL : URL) (links : list string) :
  Key attr = "href" →
  is_Some (url_Parse (Val attr)) →
  processLink_loop (before ++ attr :: after) result baseURL
  = processLink_loop (before ++ [attr]) result baseURL
  ∧ extractLinks_loop (before ++ attr :: after) baseURL links
    = extractLinks_loop (before ++ [attr]) baseURL links.
Proof.
  intros Hkey [u Hu].
  assert (∀ rest, firstParsedHref (before ++ attr :: rest)
                  = firstParsedHref (before ++ [attr])) as Hfirst.
  { intros rest. induction before as [|a before IH]; simpl.
    - by rewrite Hkey, Hu.
    - destruct (String.eqb (Key a) "href"); [|exact IH].
      by destruct (url_Parse (Val a)). }
  by rewrite !processLink_loop_spec, !extractLinks_loop_spec, !Hfirst.
Qed.

Lemma attributes_after_parsed_href_are_ignored_witness :
  processLink_loop (L:=Samples.lib)
    [Samples.attr "href" "/x"; Samples.attr "href" "https://ext.example"]
    (newResult "u") Samples.base
  = processLink_loop (L:=Samples.lib) [Samples.attr "href" "/x"]
      (newResult "u") Samples.base.
Proof.
  exact (proj1 (attributes_after_parsed_href_are_ignored (L:=Samples.lib)
    [] [Samples.attr "href" "https://ext.example"] (Samples.attr "href" "/x")
    (newResult "u") Samples.base [] eq_refl (mk_is_Some _ _ eq_refl))).
Defined.

(** ** The worker pool under every schedule *)

Section PoolRuns.
Context `{L : GoLib}.
Variable config : AnalyzerConfig.
Variable net : Network.

Lemma checkingLinks_insert ws i w w0 :
  ws !! i = Some w0 →
  option_list (checkingLink w0) ++ checkingLinks (<[i:=w]> ws)
  ≡ₚ option_list (checkingLink w) ++ checkingLinks ws.
Proof.
  unfold checkingLinks. revert i.
  induction ws as [|x ws IH]; intros [|i] Hi; simplify_eq/=.
  - destruct (checkingLink w0), (checkingLink w); simpl; try done.
    apply perm_swap.
  - specialize (IH i Hi).
    destruct (checkingLink x) as [l|]; simpl; [|done].
    rewrite <- !Permutation_middle. by constructor.
Qed.

Lemma checkingLinks_allExited ws :
  allExited ws = true → checkingLinks ws = [].
Proof.
  unfold checkingLinks. induction ws as [|[| |] ws IH]; simpl; try done.
Qed.

Lemma pool_step_accounted links s e s' :
  linksAccounted links s →
  pool_step config net s e = Some s' →
  linksAccounted links s'.
Proof.
  unfold linksAccounted. intros Hacc Hstep. destruct e; simpl in Hstep.
  - by simplify_eq.
  - destruct (jobsClosed s); [done|].
    destruct (pending s) as [|link rest] eqn:Hp; simplify_eq/=.
    rewrite <- Hacc. by rewrite <- (app_assoc (jobs s) [link] rest).
  - destruct (_ && _); by simplify_eq.
  - destruct (workers s !! w) as [[| |]|] eqn:Hws; try done.
    destruct (jobs s) as [|link rest] eqn:Hj; simplify_eq/=.
    pose proof (checkingLinks_insert _ _ (Checking link) _ Hws) as Hins.
    simpl in Hins. rewrite <- Hacc, Hins. simpl.
    by rewrite <- !Permutation_middle.
  - destruct (workers s !! w) as [[|link|]|] eqn:Hws; simplify_eq/=.
    pose proof (checkingLinks_insert _ _ Waiting _ Hws) as Hins.
    simpl in Hins. rewrite <- Hacc, <- Hins, <- app_assoc. simpl.
    by rewrite <- Permutation_middle.
  - destruct (workers s !! w) as [[| |]|] eqn:Hws; try done.
    destruct (jobs s) eqn:Hj; [|done].
    destruct (jobsClosed s); simplify_eq/=.
    pose proof (checkingLinks_insert _ _ Exited _ Hws) as Hins.
    simpl in Hins. by rewrite <- Hacc, Hins.
  - destruct (_ && _); by simplify_eq.
  - destruct (results s); by simplify_eq.
Qed.

Lemma pool_run_accounted links sched :
  ∀ s s', linksAccounted links s →
          pool_run config net sched s = Some s' →
          linksAccounted links s'.
Proof.
  induction sched as [|e sched IH]; intros s s' Hacc Hrun; simpl in Hrun.
  - by simplify_eq.
  - destruct (pool_step config net s e) as [s1|] eqn:Hstep; [|done].
    eapply IH; [|exact Hrun]. by eapply pool_step_accounted.
Qed.

Lemma pool_init_accounted ctx links :
  linksAccounted links (pool_init config ctx links).
Proof.
  unfold linksAccounted, pool_init, checkingLinks. simpl.
  by induction (Z.to_nat (effectiveWorkers config links)).
Qed.

(** *** Without workers *)

Lemma pool_run_no_workers sched :
  ∀ s s', workers s = [] → probed s = [] → results s = [] →
          inaccessible s = 0 →
          pool_run config net sched s = Some s' →
          probed s' = [] ∧ results s' = [] ∧ inaccessible s' = 0.
Proof.
  induction sched as [|e sched IH]; intros s s' Hw Hp Hr Hi Hrun;
    simpl in Hrun; [by simplify_eq|].
  destruct (pool_step config net s e) as [s1|] eqn:Hstep; [|done].
  apply (IH s1 s'); [..|exact Hrun];
    destruct e; simpl in Hstep; rewrite ?Hw, ?Hr in Hstep;
    repeat (case_match; simplify_eq/=); simplify_eq/=; done.
Qed.

(** *** From any state to the end *)

Lemma run_settle ws :
  ∀ settled pend jobs jc res rc pr ina cd prb,
    pool_run config net (settleEvents (length settled) ws)
      (mkPool pend jobs jc (settled ++ ws) res rc pr ina cd prb)
    = Some (mkPool pend jobs jc (settled ++ map settle ws)
              (res ++ map (checkSingleLink config net cd) (checkingLinks ws))
              rc pr ina cd (prb ++ checkingLinks ws)).
Proof.
  induction ws as [|w ws IH]; intros settled pend jobs jc res rc pr ina cd prb.
  { simpl. by rewrite !app_nil_r. }
  assert (∀ x, settled ++ x :: ws = (settled ++ [x]) ++ ws) as Hmid
    by (intros; by rewrite <- app_assoc).
  assert (S (length settled) = length (settled ++ [settle w])) as Hlen
    by (rewrite length_app; simpl; lia).
  destruct w as [|link|]; simpl.
  - rewrite Hlen, (Hmid Waiting), IH. by rewrite <- app_assoc.
  - rewrite list_lookup_middle by done. simpl.
    rewrite insert_app_r_alt, Nat.sub_diag by done. simpl.
    rewrite Hlen, (Hmid Waiting), IH. unfold checkingLinks. simpl.
    by rewrite <- !app_assoc.
  - rewrite Hlen, (Hmid Exited), IH. by rewrite <- app_assoc.
Qed.

Lemma run_retire ws :
  ∀ retired pend jobs res rc pr ina cd prb,
    jobs = [] ∨ existsb isWaiting ws = false →
    pool_run config net (retireEvents (length retired) ws)
      (mkPool pend jobs true (retired ++ ws) res rc pr ina cd prb)
    = Some (mkPool pend jobs true (retired ++ map retire ws) res rc pr ina cd
                   prb).
Proof.
  induction ws as [|w ws IH]; intros retired pend jobs res rc pr ina cd prb
    Hpre; [done|].
  assert (∀ x, retired ++ x :: ws = (retired ++ [x]) ++ ws) as Hmid
    by (intros; by rewrite <- app_assoc).
  assert (S (length retired) = length (retired ++ [retire w])) as Hlen
    by (rewrite length_app; simpl; lia).
  destruct w as [|link|]; simpl in *.
  - destruct Hpre as [->|?]; [|done].
    rewrite list_lookup_middle by done. simpl.
    rewrite insert_app_r_alt, Nat.sub_diag by done. simpl.
    rewrite Hlen, (Hmid Exited), IH by (by left). by rewrite <- app_assoc.
  - rewrite Hlen, (Hmid (Checking link)), IH by done. by rewrite <- app_assoc.
  - rewrite Hlen, (Hmid Exited), IH by done. by rewrite <- app_assoc.
Qed.

Lemma run_checks_at w jobs :
  ∀ pend jc ws res rc pr ina cd prb,
    ws !! w = Some Waiting →
    pool_run config net
      (concat (replicate (length jobs) [EvReceive w; EvChecked w]))
      (mkPool pend jobs jc ws res rc pr ina cd prb)
    = Some (mkPool pend [] jc ws
              (res ++ map (checkSingleLink config net cd) jobs)
              rc pr ina cd (prb ++ jobs)).
Proof.
  induction jobs as [|link jobs IH]; intros pend jc ws res rc pr ina cd prb
    Hw.
  - simpl. by rewrite !app_nil_r.
  - simpl. rewrite Hw. simpl.
    rewrite list_lookup_insert_eq by (by eapply lookup_lt_Some). simpl.
    rewrite list_insert_insert_eq, (list_insert_id _ _ _ Hw).
    rewrite IH by done. by rewrite <- !app_assoc.
Qed.

Lemma firstWaiting_Some ws :
  ∀ i w, firstWaiting i ws = Some w → ∃ k, w = i + k ∧ ws !! k = Some Waiting.
Proof.
  induction ws as [|x ws IH]; intros i w; simpl; [done|].
  destruct x; simpl.
  - intros ?; simplify_eq. exists 0. split; [lia|done].
  - intros (k & -> & Hk)%IH. exists (S k). split; [lia|done].
  - intros (k & -> & Hk)%IH. exists (S k). split; [lia|done].
Qed.

Lemma firstWaiting_None ws :
  ∀ i, firstWaiting i ws = None → existsb isWaiting ws = false.
Proof.
  induction ws as [|x ws IH]; intros i; simpl; [done|].
  destruct x; simpl; eauto. done.
Qed.

Lemma allExited_retire_settle ws :
  allExited (map retire (map settle ws)) = true.
Proof. induction ws as [|[| |] ws IH]; simpl; done. Qed.

Lemma pool_run_finish s :
  ∃ s', pool_run config net (finishSchedule s) s = Some s'
        ∧ collectorDone s' = true.
Proof.
  destruct s as [pend jobs jc ws res rc pr ina cd prb].
  unfold finishSchedule. simpl.
  set (queued := if jc then jobs else jobs ++ pend).
  rewrite pool_run_app.
  assert (pool_run config net
            (if jc then []
             else replicate (length pend) EvSend ++ [EvSenderStop])
            (mkPool pend jobs jc ws res rc pr ina cd prb)
          = Some (mkPool (if jc then pend else []) queued true ws res rc pr
                         ina cd prb)) as ->.
  { subst queued. destruct jc; [done|].
    by rewrite pool_run_app, run_sends. }
  rewrite pool_run_app, (run_settle ws []). simpl.
  rewrite pool_run_app.
  set (res1 := res ++ map (checkSingleLink config net cd) (checkingLinks ws)).
  set (prb1 := prb ++ checkingLinks ws).
  destruct (firstWaiting 0 (map settle ws)) as [w|] eqn:Hfirst.
  - apply firstWaiting_Some in Hfirst as (k & -> & Hk). simpl.
    rewrite (run_checks_at k queued) by done.
    rewrite pool_run_app, (run_retire (map settle ws) []) by (by left). simpl.
    rewrite pool_run_app.
    set (res2 := res1 ++ map (checkSingleLink config net cd) queued).
    assert (length res + length (checkingLinks ws) + length queued
            = length res2) as ->.
    { subst res2 res1. rewrite !length_app, !length_map. lia. }
    destruct rc; simpl.
    + rewrite run_collects. eauto.
    + rewrite allExited_retire_settle. simpl. rewrite run_collects. eauto.
  - apply firstWaiting_None in Hfirst. simpl.
    rewrite pool_run_app, (run_retire (map settle ws) []) by (by right). simpl.
    rewrite pool_run_app.
    assert (length res + length (checkingLinks ws) + 0 = length res1) as ->.
    { subst res1. rewrite !length_app, !length_map. lia. }
    destruct rc; simpl.
    + rewrite run_collects. eauto.
    + rewrite allExited_retire_settle. simpl. rewrite run_collects. eauto.
Qed.

Lemma finishSchedule_no_cancel s :
  Forall (λ e, e ≠ EvCancel) (finishSchedule s).
Proof.
  unfold finishSchedule. rewrite !Forall_app. repeat split.
  - destruct (jobsClosed s); [done|].
    rewrite Forall_app. split; [|by repeat constructor].
    by apply Forall_replicate.
  - generalize 0. induction (workers s) as [|[| |] ws IH]; intros i; simpl;
      try constructor; try done; apply IH.
  - destruct (firstWaiting _ _); [|done].
    induction (length _); simpl; repeat constructor; done.
  - generalize 0.
    induction (map settle (workers s)) as [|[| |] ws IH]; intros i; simpl;
      try constructor; try done; apply IH.
  - destruct (resultsClosed s); by repeat constructor.
  - by apply Forall_replicate.
Qed.

End PoolRuns.

(** ** What every execution of the pool guarantees *)

Section PoolGuarantees.
Context `{L : GoLib}.
Variable config : AnalyzerConfig.
Variable net : Network.

Lemma existsb_countb_pos {A} (p : A → bool) l :
  existsb p l = true → 1 ≤ countb p l.
Proof.
  induction l as [|x l IH]; simpl; [done|].
  destruct (p x); simpl; [lia|]. intros ?%IH. lia.
Qed.

(** X7. The channels [jobs] and [results] are made with capacity
    [len(links)], and in no state of any execution does either hold more:
    when the sender still has a link to offer, [jobs] has room for it, and
    when a worker is inside a check, [results] has room for its outcome.  So
    no send of the pool ever blocks on a full channel. *)
Theorem channels_are_never_full ctx links sched s :
  pool_run config net sched (pool_init config ctx links) = Some s →
  (pending s ≠ [] → length (jobs s) < length links)
  ∧ (existsb isChecking (workers s) = true →
     length (results s) < length links)
  ∧ length (jobs s) ≤ length links
  ∧ length (results s) ≤ length links.
Proof.
  intros Hrun.
  pose proof Hrun as Hinv.
  eapply pool_run_inv in Hinv; [|apply pool_init_inv].
  destruct Hinv as [_ Hc Hr Hl].
  repeat split; try lia.
  - destruct (pending s); [done|]. simpl in Hl. lia.
  - intros ?%existsb_countb_pos. lia.
Qed.

(** X8. No link is checked twice, and nothing that is not a link of the
    page is checked: under every schedule the checks that were made are,
    up to their order, a sub-multiset of [links].  When the context is not
    cancelled and at least one worker is configured, they are [links]
    itself up to order: every link is checked exactly once. *)
Theorem every_link_is_checked_at_most_once ctx links sched count checks :
  checkLinksAccessibility config net ctx links sched = Some (count, checks) →
  checks ⊆+ links
  ∧ (ctx = false → (1 <= MaxWorkers config)%Z →
     Forall (λ e, e ≠ EvCancel) sched → checks ≡ₚ links).
Proof.
  unfold checkLinksAccessibility.
  destruct links as [|link links]; [intros ?; simplify_eq/=; by split|].
  change (length (link :: links) =? 0)%nat with false. cbv iota.
  assert (0 < length (link :: links)) as Hlen by (simpl; lia). revert Hlen.
  generalize (link :: links). clear link links. intros links Hlen.
  destruct (pool_run _ _ _ _) as [s|] eqn:Hrun; [|done].
  unfold collectorDone.
  destruct (resultsClosed s) eqn:Hrc; simpl; [|done].
  destruct (results s) eqn:Hres; [|done]. intros ?; simplify_eq.
  pose proof Hrun as Hacc.
  eapply pool_run_accounted in Hacc; [|apply pool_init_accounted].
  unfold linksAccounted in Hacc. split.
  - rewrite <- Hacc. by apply submseteq_inserts_r.
  - intros -> HW Hsched.
    pose proof Hrun as Hlive.
    eapply pool_run_live in Hlive; [|done|apply pool_init_live].
    destruct Hlive as [_ Hclosed Hexited Hdone _ _].
    specialize (Hdone Hrc).
    pose proof Hrun as Hinv.
    eapply pool_run_inv in Hinv; [|apply pool_init_inv].
    destruct Hinv as [Hw _ _ _].
    assert (existsb isExited (workers s) = true) as Hex.
    { destruct (workers s) as [|w ws] eqn:Hws.
      - simpl in Hw. unfold effectiveWorkers in Hw.
        destruct (_ >? _)%Z; lia.
      - simpl in Hdone |- *. destruct w; simpl in *; done. }
    destruct (Hexited Hex) as [Hjobs Hjc].
    rewrite (checkingLinks_allExited _ Hdone), Hjobs, (Hclosed Hjc) in Hacc.
    by rewrite !app_nil_r in Hacc.
Qed.

(** X9. The pool cannot get stuck.  Whatever has happened so far, and
    whether or not the context was cancelled, the goroutines can always
    run to the end: from the state reached by any execution,
    [finishSchedule] is an execution, without a cancellation, after which
    [checkLinksAccessibility] returns. *)
Theorem every_execution_can_finish ctx links sched s :
  pool_run config net sched (pool_init config ctx links) = Some s →
  Forall (λ e, e ≠ EvCancel) (finishSchedule s)
  ∧ ∃ count checks,
      checkLinksAccessibility config net ctx links (sched ++ finishSchedule s)
      = Some (count, checks).
Proof.
  intros Hrun. split; [apply finishSchedule_no_cancel|].
  unfold checkLinksAccessibility.
  destruct (length links =? 0)%nat; [by eexists _, _|].
  rewrite pool_run_app, Hrun.
  destruct (pool_run_finish config net s) as (s' & -> & ->). by eexists _, _.
Qed.

Lemma checkLinksAccessibility_no_workers ctx links sched count checks :
  (MaxWorkers config <= 0)%Z →
  checkLinksAccessibility config net ctx links sched = Some (count, checks) →
  count = 0 ∧ checks = [].
Proof.
  intros HW.
  assert (Z.to_nat (effectiveWorkers config links) = 0) as Hnone.
  { unfold effectiveWorkers. destruct (_ >? _)%Z eqn:Hgt; lia. }
  unfold checkLinksAccessibility.
  destruct (length links =? 0)%nat; [intros; by simplify_eq|].
  destruct (pool_run _ _ _ _) as [s|] eqn:Hrun; [|done].
  destruct (collectorDone s); [|done]. intros ?; simplify_eq.
  eapply pool_run_no_workers in Hrun as (? & _ & ?); try done.
  unfold pool_init. simpl. by rewrite Hnone.
Qed.

(** X10. When [MaxWorkers] is zero or negative no worker is started: the
    call still returns (the sender fills [jobs], the closer closes
    [results] at once), and under every schedule it returns 0 without
    having checked a single link. *)
Theorem no_workers_no_checks ctx links :
  (MaxWorkers config <= 0)%Z →
  checkLinksAccessibility config net ctx links
    (sequentialSchedule config links) = Some (0, [])
  ∧ ∀ sched count checks,
      checkLinksAccessibility config net ctx links sched
      = Some (count, checks) →
      count = 0 ∧ checks = [].
Proof.
  intros HW.
  assert (Z.to_nat (effectiveWorkers config links) = 0) as Hnone.
  { unfold effectiveWorkers. destruct (_ >? _)%Z eqn:Hgt; lia. }
  split.
  - by rewrite sequentialSchedule_returns, Hnone.
  - intros sched count checks. by apply checkLinksAccessibility_no_workers.
Qed.

Lemma checkSingleLink_cancelled link :
  checkSingleLink config net true link = false.
Proof.
  unfold checkSingleLink, client_Do, client_Do_traced.
  destruct (NewRequestWithContext link) as [req|]; [|done].
  destruct (Z.to_nat (MaxRedirects config)); simpl;
    destruct (negb _); try done; by destruct (String.eqb _ "").
Qed.

Lemma pool_step_cancelled s e s' :
  poolCancelled s →
  inaccessible s = processed s →
  pool_step config net s e = Some s' →
  poolCancelled s' ∧ inaccessible s' = processed s'.
Proof.
  unfold poolCancelled. intros [Hctx Hres] Hcount Hstep.
  destruct e; simpl in Hstep;
    repeat (case_match; simplify_eq/=); simplify_eq/=;
    rewrite ?Hctx, ?forallb_app, ?Hres, ?checkSingleLink_cancelled in *;
    simpl; try done; try (split; [done|lia]).
Qed.

Lemma pool_run_cancelled sched :
  ∀ s s', poolCancelled s → inaccessible s = processed s →
          pool_run config net sched s = Some s' →
          poolCancelled s' ∧ inaccessible s' = processed s'.
Proof.
  induction sched as [|e sched IH]; intros s s' Hc Hi Hrun; simpl in Hrun.
  - by simplify_eq.
  - destruct (pool_step config net s e) as [s1|] eqn:Hstep; [|done].
    destruct (pool_step_cancelled _ _ _ Hc Hi Hstep). by eapply IH.
Qed.

(** X11. When the context is already cancelled at the call, every check
    that is made fails (the client returns an error before it contacts
    any server), so the returned count is the number of checks
    made, whatever the links answer. *)
Theorem cancelled_call_counts_every_check links sched count checks :
  checkLinksAccessibility config net true links sched = Some (count, checks) →
  count = length checks.
Proof.
  unfold checkLinksAccessibility.
  destruct (length links =? 0)%nat; [intros; by simplify_eq|].
  destruct (pool_run _ _ _ _) as [s|] eqn:Hrun; [|done].
  unfold collectorDone.
  destruct (resultsClosed s); simpl; [|done].
  destruct (results s) eqn:Hres; [|done]. intros ?; simplify_eq.
  pose proof Hrun as Hinv.
  eapply pool_run_inv in Hinv; [|apply pool_init_inv].
  destruct Hinv as [_ _ Hr _]. rewrite Hres in Hr. simpl in Hr.
  eapply pool_run_cancelled in Hrun as [_ ?]; [lia|done..].
Qed.

End PoolGuarantees.

Lemma channels_are_never_full_witness :
  let s := mkPool ["b"] ["a"] false [Waiting; Waiting] [] false 0 0 false []
  in
  pool_run (L:=Samples.webLib) Samples.config Samples.web [EvSend]
    (pool_init Samples.config false ["a"; "b"]) = Some s
  ∧ length (jobs s) < 2.
Proof.
  split; [reflexivity|].
  refine (proj1 (channels_are_never_full (L:=Samples.webLib) Samples.config
                   Samples.web false ["a"; "b"] [EvSend] _ eq_refl) _).
  done.
Defined.

Lemma every_link_is_checked_at_most_once_witness :
  ∃ count checks,
    checkLinksAccessibility (L:=Samples.webLib) Samples.config Samples.web
      false ["https://example.com/a"]
      [EvSend; EvReceive 0; EvSenderStop; EvChecked 0; EvWorkerExit 0;
       EvCloseResults; EvCollect]
    = Some (count, checks)
    ∧ checks ⊆+ ["https://example.com/a"].
Proof.
  exists 1, ["https://example.com/a"]. split; [vm_compute; reflexivity|].
  refine (proj1 (every_link_is_checked_at_most_once (L:=Samples.webLib)
                   Samples.config Samples.web false
                   ["https://example.com/a"]
                   [EvSend; EvReceive 0; EvSenderStop; EvChecked 0;
                    EvWorkerExit 0; EvCloseResults; EvCollect]
                   1 ["https://example.com/a"] _)).
  vm_compute. reflexivity.
Defined.

Lemma every_execution_can_finish_witness :
  let s := pool_init Samples.config false ["https://example.com/a"] in
  ∃ count checks,
    checkLinksAccessibility (L:=Samples.webLib) Samples.config Samples.web
      false ["https://example.com/a"] ([] ++ finishSchedule s)
    = Some (count, checks).
Proof.
  exact (proj2 (every_execution_can_finish (L:=Samples.webLib) Samples.config
                  Samples.web false ["https://example.com/a"] [] _ eq_refl)).
Defined.

Lemma no_workers_no_checks_witness :
  (MaxWorkers Samples.noWorkers <= 0)%Z
  ∧ checkLinksAccessibility (L:=Samples.webLib) Samples.noWorkers Samples.web
      false ["https://example.com/a"]
      (sequentialSchedule Samples.noWorkers ["https://example.com/a"])
    = Some (0, []).
Proof.
  split; [done|].
  apply (no_workers_no_checks (L:=Samples.webLib) Samples.noWorkers
           Samples.web false ["https://example.com/a"]).
  done.
Defined.

Lemma cancelled_call_counts_every_check_witness :
  ∃ count checks,
    checkLinksAccessibility (L:=Samples.webLib) Samples.config Samples.web
      true ["https://example.com/a"]
      [EvSend; EvReceive 0; EvSenderStop; EvChecked 0; EvWorkerExit 0;
       EvCloseResults; EvCollect]
    = Some (count, checks)
    ∧ count = 1 ∧ count = length checks.
Proof.
  exists 1, ["https://example.com/a"].
  split; [vm_compute; reflexivity|]. split; [reflexivity|].
  apply (cancelled_call_counts_every_check (L:=Samples.webLib) Samples.config
           Samples.web ["https://example.com/a"]
           [EvSend; EvReceive 0; EvSenderStop; EvChecked 0; EvWorkerExit 0;
            EvCloseResults; EvCollect] 1 ["https://example.com/a"]).
  vm_compute. reflexivity.
Defined.

(** ** The whole analysis *)

Section WholeAnalysis.
Context `{L : GoLib}.
Variable config : AnalyzerConfig.
Variable net : Network.

Lemma analyzeDocument_address doc result baseURL :
  URL_ (analyzeDocument doc result baseURL) = URL_ result
  ∧ Error (analyzeDocument doc result baseURL) = Error result.
Proof.
  unfold analyzeDocument. rewrite traverseNode_preorder. split.
  - apply (fold_keeps (λ m r, traverseNode_visit m r baseURL) URL_).
    intros. apply visit_keeps.
  - apply (fold_keeps (λ m r, traverseNode_visit m r baseURL) Error).
    intros. apply visit_keeps.
Qed.


(** X12. A result that [AnalyzeURL] returns names the address that was
    fetched: the argument itself when it has a scheme, and the argument
    with [http://] put in front otherwise.  That address parses, the page
    behind it was fetched, and the [Error] field of the result is empty. *)
Theorem analysis_reports_fetched_address ctx targetURL sched result :
  AnalyzeURL config net ctx targetURL sched = Some (inr result) →
  ∃ u u' doc,
    url_Parse targetURL = Some u
    ∧ URL_ result
      = (if String.eqb (Scheme u) "" then "http://" +:+ targetURL
         else targetURL)
    ∧ url_Parse (URL_ result) = Some u'
    ∧ fetchHTML config net ctx (URL_ result) = inr doc
    ∧ Error result = "".
Proof.
  unfold AnalyzeURL, AnalyzeURL_traced.
  destruct (url_Parse targetURL) as [u|] eqn:Hu; [|done].
  set (address := if String.eqb (Scheme u) "" then "http://" +:+ targetURL
                  else targetURL).
  assert (∀ u' doc (r : Result),
            url_Parse address = Some u' →
            fetchHTML config net ctx address = inr doc →
            URL_ r = address → Error r = "" →
            ∃ u0 u1 doc0,
              Some u = Some u0
              ∧ URL_ r = (if String.eqb (Scheme u0) "" then
                            "http://" +:+ targetURL else targetURL)
              ∧ url_Parse (URL_ r) = Some u1
              ∧ fetchHTML config net ctx (URL_ r) = inr doc0
              ∧ Error r = "") as Hfinal.
  { intros u' doc r Hu' Hdoc Hr He. exists u, u', doc. by rewrite Hr. }
  assert (∀ u' doc,
            let r := analyzeDocument doc
                       (setURL address (newResult targetURL)) u' in
            (URL_ r = address ∧ Error r = "")
            ∧ ∀ k, URL_ (setInaccessibleLinks k r) = address
                   ∧ Error (setInaccessibleLinks k r) = "") as Hkeep.
  { intros u' doc.
    destruct (analyzeDocument_address doc
                (setURL address (newResult targetURL)) u') as [HU HE].
    cbv zeta. split; [by rewrite HU, HE|]. intros k.
    destruct (analyzeDocument _ _ _). simpl in *. by rewrite HU, HE. }
  subst address. destruct (String.eqb (Scheme u) "") eqn:Hscheme.
  - destruct (url_Parse ("http://" +:+ targetURL)) as [u'|] eqn:Hu'; [|done].
    destruct (fetchHTML _ _ _ _) as [e|doc] eqn:Hdoc; [done|].
    destruct (Hkeep u' doc) as [[HU HE] Hset].
    destruct (0 <? _)%nat.
    + destruct (checkLinksAccessibility _ _ _ _ _) as [[count checks]|];
        [|done].
      intros ?; simplify_eq. destruct (Hset count). by eapply Hfinal.
    + intros ?; simplify_eq. by eapply Hfinal.
  - destruct (fetchHTML _ _ _ _) as [e|doc] eqn:Hdoc; [done|].
    destruct (Hkeep u doc) as [[HU HE] Hset].
    destruct (0 <? _)%nat.
    + destruct (checkLinksAccessibility _ _ _ _ _) as [[count checks]|];
        [|done].
      intros ?; simplify_eq. destruct (Hset count). by eapply Hfinal.
    + intros ?; simplify_eq. by eapply Hfinal.
Qed.


End WholeAnalysis.

Lemma analysis_reports_fetched_address_witness :
  ∃ result,
    AnalyzeURL (L:=Samples.webLib) Samples.config Samples.web false
      "https://example.com" Samples.interleaved = Some (inr result)
    ∧ ∃ u u' doc,
        url_Parse (GoLib:=Samples.webLib) "https://example.com" = Some u
        ∧ URL_ result
          = (if String.eqb (Scheme u) ""
             then "http://" +:+ "https://example.com"
             else "https://example.com")
        ∧ url_Parse (GoLib:=Samples.webLib) (URL_ result) = Some u'
        ∧ fetchHTML (L:=Samples.webLib) Samples.config Samples.web false
            (URL_ result) = inr doc
        ∧ Error result = "".
Proof.
  eexists. split; [vm_compute; reflexivity|].
  apply (analysis_reports_fetched_address (L:=Samples.webLib)
           Samples.config Samples.web false "https://example.com"
           Samples.interleaved).
  vm_compute. reflexivity.
Defined.

(** ** The configuration loader *)

Section LoaderProperties.
Variable Atoi : string → option Z.
Variable ParseDuration : string → option Z.
Variable env : Env.

Ltac env_step :=
  intros; unfold ifSet, ifParsed, envString, envFlag, envNumber; cbv zeta;
  destruct (String.eqb _ ""); [reflexivity|];
  try (destruct (Atoi _)); try (destruct (ParseDuration _)); reflexivity.

Lemma overrideWithEnv_fields config :
  overrideWithEnv Atoi ParseDuration env config
  = mkAppConfig
      (envString env "PORT" (Port config))
      (envFlag env "PPROF_ENABLED" (PprofEnabled config))
      (envString env "PPROF_PORT" (PprofPort config))
      (envString env "LOG_LEVEL" (LogLevel config))
      (envString env "LOG_FORMAT" (LogFormat config))
      (ReadTimeout config) (WriteTimeout config)
      (mkConfig
         (envNumber Atoi env "MAX_WORKERS" (MaxWorkers (Analyzer config)))
         (envNumber ParseDuration env "REQUEST_TIMEOUT"
                    (RequestTimeout (Analyzer config)))
         (envNumber ParseDuration env "LINK_TIMEOUT"
                    (LinkTimeout (Analyzer config)))
         (envNumber Atoi env "MAX_REDIRECTS"
                    (MaxRedirects (Analyzer config)))).
Proof.
  destruct config as [p pe pp ll lf rt wt [mw rq lk mr]].
  unfold overrideWithEnv. cbv zeta. simpl.
  assert (∀ p pe pp ll lf a,
            ifSet env "PORT" setPort (mkAppConfig p pe pp ll lf rt wt a)
            = mkAppConfig (envString env "PORT" p) pe pp ll lf rt wt a)
    as -> by env_step.
  assert (∀ p pe pp ll lf a,
            ifSet env "PPROF_ENABLED"
              (λ v, setPprofEnabled (String.eqb v "true"))
              (mkAppConfig p pe pp ll lf rt wt a)
            = mkAppConfig p (envFlag env "PPROF_ENABLED" pe) pp ll lf rt wt a)
    as -> by env_step.
  assert (∀ p pe pp ll lf a,
            ifSet env "PPROF_PORT" setPprofPort
              (mkAppConfig p pe pp ll lf rt wt a)
            = mkAppConfig p pe (envString env "PPROF_PORT" pp) ll lf rt wt a)
    as -> by env_step.
  assert (∀ p pe pp ll lf a,
            ifSet env "LOG_LEVEL" setLogLevel
              (mkAppConfig p pe pp ll lf rt wt a)
            = mkAppConfig p pe pp (envString env "LOG_LEVEL" ll) lf rt wt a)
    as -> by env_step.
  assert (∀ p pe pp ll lf a,
            ifSet env "LOG_FORMAT" setLogFormat
              (mkAppConfig p pe pp ll lf rt wt a)
            = mkAppConfig p pe pp ll (envString env "LOG_FORMAT" lf) rt wt a)
    as -> by env_step.
  assert (∀ p pe pp ll lf mw rq lk mr,
            ifSet env "MAX_WORKERS" (ifParsed Atoi setMaxWorkers)
              (mkAppConfig p pe pp ll lf rt wt (mkConfig mw rq lk mr))
            = mkAppConfig p pe pp ll lf rt wt
                (mkConfig (envNumber Atoi env "MAX_WORKERS" mw) rq lk mr))
    as -> by env_step.
  assert (∀ p pe pp ll lf mw rq lk mr,
            ifSet env "REQUEST_TIMEOUT"
              (ifParsed ParseDuration setRequestTimeout)
              (mkAppConfig p pe pp ll lf rt wt (mkConfig mw rq lk mr))
            = mkAppConfig p pe pp ll lf rt wt
                (mkConfig mw (envNumber ParseDuration env "REQUEST_TIMEOUT" rq)
                          lk mr))
    as -> by env_step.
  assert (∀ p pe pp ll lf mw rq lk mr,
            ifSet env "LINK_TIMEOUT" (ifParsed ParseDuration setLinkTimeout)
              (mkAppConfig p pe pp ll lf rt wt (mkConfig mw rq lk mr))
            = mkAppConfig p pe pp ll lf rt wt
                (mkConfig mw rq (envNumber ParseDuration env "LINK_TIMEOUT" lk)
                          mr))
    as -> by env_step.
  assert (∀ p pe pp ll lf mw rq lk mr,
            ifSet env "MAX_REDIRECTS" (ifParsed Atoi setMaxRedirects)
              (mkAppConfig p pe pp ll lf rt wt (mkConfig mw rq lk mr))
            = mkAppConfig p pe pp ll lf rt wt
                (mkConfig mw rq lk (envNumber Atoi env "MAX_REDIRECTS" mr)))
    as -> by env_step.
  reflexivity.
Qed.

Lemma envString_idempotent key old :
  envString env key (envString env key old) = envString env key old.
Proof. unfold envString. cbv zeta. by destruct (String.eqb _ ""). Qed.

Lemma envFlag_idempotent key old :
  envFlag env key (envFlag env key old) = envFlag env key old.
Proof. unfold envFlag. cbv zeta. by destruct (String.eqb _ ""). Qed.

Lemma envNumber_idempotent parse key old :
  envNumber parse env key (envNumber parse env key old)
  = envNumber parse env key old.
Proof.
  unfold envNumber. cbv zeta. destruct (String.eqb _ ""); [done|].
  by destruct (parse _).
Qed.

(** X14. [overrideWithEnv] is idempotent, and it leaves the configuration
    as it is when none of its nine variables is set: a variable that is
    set to the empty string counts as not set. *)
Theorem overrideWithEnv_idempotent (config : Config) :
  overrideWithEnv Atoi ParseDuration env
    (overrideWithEnv Atoi ParseDuration env config)
  = overrideWithEnv Atoi ParseDuration env config
  ∧ (Forall (λ key, Getenv env key = "") overrideKeys →
     overrideWithEnv Atoi ParseDuration env config = config).
Proof.
  split.
  - rewrite (overrideWithEnv_fields (overrideWithEnv _ _ _ _)).
    rewrite (overrideWithEnv_fields config). simpl.
    by rewrite !envString_idempotent, envFlag_idempotent,
      !envNumber_idempotent.
  - intros Hunset. unfold overrideKeys in Hunset.
    repeat match type of Hunset with
           | Forall _ (_ :: _) => apply Forall_cons in Hunset as [? Hunset]
           end.
    rewrite overrideWithEnv_fields.
    unfold envString, envFlag, envNumber. cbv zeta.
    repeat match goal with H : Getenv env _ = "" |- _ => rewrite H; clear H end.
    simpl. by destruct config as [? ? ? ? ? ? ? []].
Qed.

Variable ReadFile : string → option string.
Variable Unmarshal : string → Config → Config * bool.

Lemma readFirst_first unreadable path data rest last :
  Forall (λ p, ReadFile p = None) unreadable →
  ReadFile path = Some data →
  readFirst ReadFile (unreadable ++ path :: rest) last = Some data.
Proof.
  intros Hnone Hdata. revert last.
  induction Hnone as [|p ps Hp _ IH]; intros last; simpl.
  - by rewrite Hdata.
  - by rewrite Hp.
Qed.

Lemma readFirst_none paths last :
  paths ≠ [] →
  Forall (λ p, ReadFile p = None) paths →
  readFirst ReadFile paths last = None.
Proof.
  intros Hne Hnone. revert last.
  induction Hnone as [|p ps Hp Hps IH]; intros last; [done|]. simpl.
  rewrite Hp. destruct ps; [done|]. by apply IH.
Qed.

Lemma configPaths_nonempty : configPaths env ≠ [].
Proof. unfold configPaths. by destruct (String.eqb _ ""). Qed.

(** X15. [Load] takes the configuration file from the first path that
    can be read, among [CONFIG_PATH] (when set), [config.yaml] and
    [configs/config.yaml], in this order.  What the YAML parser leaves in
    the configuration is kept even when it reports an error, and no later
    file is looked at.  When no file can be read the defaults are used.
    In both cases the environment is applied afterwards and [Load] returns
    no error. *)
Theorem load_uses_first_readable_file :
  (∀ unreadable path rest data,
     configPaths env = unreadable ++ path :: rest →
     Forall (λ p, ReadFile p = None) unreadable →
     ReadFile path = Some data →
     Load Atoi ParseDuration ReadFile Unmarshal env
     = (overrideWithEnv Atoi ParseDuration env
          (fst (Unmarshal data defaultConfig)), false))
  ∧ (Forall (λ p, ReadFile p = None) (configPaths env) →
     Load Atoi ParseDuration ReadFile Unmarshal env
     = (overrideWithEnv Atoi ParseDuration env defaultConfig, false)).
Proof.
  unfold Load, loadFromYAML. cbv zeta. split.
  - intros unreadable path rest data -> Hnone Hdata.
    by rewrite (readFirst_first _ _ data).
  - intros Hnone.
    by rewrite (readFirst_none _ _ configPaths_nonempty Hnone).
Qed.

(** X16. The environment wins over the file and over the defaults, for
    each of the nine variables: one that is set replaces the value that
    the file left, and one that is not set leaves it.  A number or a
    duration that does not parse is ignored without an error, so the value
    of the file or the default stays.  Any value of [PPROF_ENABLED] other
    than [true] switches pprof off.  The read and write timeouts cannot be
    set from the environment. *)
Theorem environment_wins_over_file :
  let loaded := fst (Load Atoi ParseDuration ReadFile Unmarshal env) in
  let fromFile := fst (loadFromYAML ReadFile Unmarshal env defaultConfig) in
  Forall (λ '(key, field),
            let v := Getenv env key in
            (v ≠ "" → field loaded = v)
            ∧ (v = "" → field loaded = field fromFile))
         [("PORT", Port); ("PPROF_PORT", PprofPort); ("LOG_LEVEL", LogLevel);
          ("LOG_FORMAT", LogFormat)]
  ∧ (let v := Getenv env "PPROF_ENABLED" in
     (v ≠ "" → PprofEnabled loaded = true ↔ v = "true")
     ∧ (v = "" → PprofEnabled loaded = PprofEnabled fromFile))
  ∧ Forall (λ '(key, parse, field),
              let v := Getenv env key in
              (∀ x, v ≠ "" → parse v = Some x → field (Analyzer loaded) = x)
              ∧ (v = "" ∨ parse v = None →
                 field (Analyzer loaded) = field (Analyzer fromFile)))
           [("MAX_WORKERS", Atoi, MaxWorkers);
            ("REQUEST_TIMEOUT", ParseDuration, RequestTimeout);
            ("LINK_TIMEOUT", ParseDuration, LinkTimeout);
            ("MAX_REDIRECTS", Atoi, MaxRedirects)]
  ∧ ReadTimeout loaded = ReadTimeout fromFile
  ∧ WriteTimeout loaded = WriteTimeout fromFile.
Proof.
  cbv zeta. unfold Load. cbv zeta. simpl. rewrite overrideWithEnv_fields.
  simpl. unfold envString, envFlag, envNumber. cbv zeta.
  assert (∀ key (old : string),
            (Getenv env key ≠ "" →
             (if String.eqb (Getenv env key) "" then old else Getenv env key)
             = Getenv env key)
            ∧ (Getenv env key = "" →
               (if String.eqb (Getenv env key) "" then old
                else Getenv env key) = old)) as Hstring.
  { intros key old. split; [by intros ->%String.eqb_neq | by intros ->]. }
  assert (∀ key parse (old : Z),
            (∀ x, Getenv env key ≠ "" → parse (Getenv env key) = Some x →
                  (if String.eqb (Getenv env key) "" then old
                   else match parse (Getenv env key) with
                        | Some x => x
                        | None => old
                        end) = x)
            ∧ (Getenv env key = "" ∨ parse (Getenv env key) = None →
               (if String.eqb (Getenv env key) "" then old
                else match parse (Getenv env key) with
                     | Some x => x
                     | None => old
                     end) = old)) as Hnumber.
  { intros key parse old. split.
    - intros x ->%String.eqb_neq. by intros ->.
    - intros [->| ->]; [done|]. by destruct (String.eqb _ ""). }
  split; [repeat constructor; apply Hstring|].
  split.
  { split.
    - intros ->%String.eqb_neq.
      split; [by intros ?%String.eqb_eq | by intros ->].
    - by intros ->. }
  split; [repeat constructor; apply Hnumber|].
  done.
Qed.

End LoaderProperties.

(** X17. [MAX_WORKERS] is taken as it parses, without a check of its
    range: with a value of zero or less in the environment the loaded
    configuration starts no worker, and the link checker under it returns 0
    without checking a link, whatever the file says. *)
Theorem max_workers_is_not_validated `{L : GoLib}
    (Atoi ParseDuration : string → option Z)
    (ReadFile : string → option string)
    (Unmarshal : string → Config → Config * bool) (env : Env)
    (workers : Z) (net : Network) (ctx : bool) (links : list string)
    (sched : list Event) (count : nat) (checks : list string) :
  Getenv env "MAX_WORKERS" ≠ "" →
  Atoi (Getenv env "MAX_WORKERS") = Some workers →
  (workers <= 0)%Z →
  let loaded := fst (Load Atoi ParseDuration ReadFile Unmarshal env) in
  MaxWorkers (Analyzer loaded) = workers
  ∧ (checkLinksAccessibility (Analyzer loaded) net ctx links sched
     = Some (count, checks) →
     count = 0 ∧ checks = []).
Proof.
  intros Hset Hparse Hle. cbv zeta.
  assert (MaxWorkers
            (Analyzer (fst (Load Atoi ParseDuration ReadFile Unmarshal env)))
          = workers) as Hworkers.
  { unfold Load. cbv zeta. simpl. rewrite overrideWithEnv_fields. simpl.
    unfold envNumber. cbv zeta.
    apply String.eqb_neq in Hset. by rewrite Hset, Hparse. }
  split; [done|].
  apply checkLinksAccessibility_no_workers. by rewrite Hworkers.
Qed.

Lemma overrideWithEnv_idempotent_witness :
  overrideWithEnv Deployment.Atoi Deployment.ParseDuration ∅ defaultConfig
  = defaultConfig.
Proof.
  apply (proj2 (overrideWithEnv_idempotent Deployment.Atoi
                  Deployment.ParseDuration ∅ defaultConfig)).
  unfold overrideKeys. by repeat constructor.
Defined.

Lemma load_uses_first_readable_file_witness :
  let env : Env := {[ "CONFIG_PATH" := "/etc/analyzer.yaml" ]} in
  let files path :=
    if String.eqb path "config.yaml" then Some ":9090" else None in
  Load Deployment.Atoi Deployment.ParseDuration files Deployment.portOnly env
  = (overrideWithEnv Deployment.Atoi Deployment.ParseDuration env
       (setPort ":9090" defaultConfig), false).
Proof.
  intros env files.
  apply (proj1 (load_uses_first_readable_file Deployment.Atoi
                  Deployment.ParseDuration env files Deployment.portOnly)
           ["/etc/analyzer.yaml"] "config.yaml" ["configs/config.yaml"]
           ":9090").
  - reflexivity.
  - by repeat constructor.
  - reflexivity.
Defined.

Lemma environment_wins_over_file_witness :
  let env : Env := {[ "PORT" := ":9090" ]} in
  Port (fst (Load Deployment.Atoi Deployment.ParseDuration Deployment.noFiles
               Deployment.portOnly env))
  = Getenv env "PORT".
Proof.
  intros env.
  destruct (environment_wins_over_file Deployment.Atoi
              Deployment.ParseDuration env Deployment.noFiles
              Deployment.portOnly) as [Hstrings _].
  apply Forall_cons in Hstrings as [[Hport _] _]. by apply Hport.
Defined.

Lemma max_workers_is_not_validated_witness :
  let env : Env := {[ "MAX_WORKERS" := "0" ]} in
  MaxWorkers
    (Analyzer (fst (Load Deployment.Atoi Deployment.ParseDuration
                      Deployment.noFiles Deployment.portOnly env)))
  = 0%Z.
Proof.
  intros env.
  refine (proj1 (max_workers_is_not_validated (L:=Samples.webLib)
                   Deployment.Atoi Deployment.ParseDuration
                   Deployment.noFiles Deployment.portOnly env 0 Samples.web
                   false [] [] 0 [] _ _ _)).
  - done.
  - reflexivity.
  - done.
Defined.

(** ** The HTTP layer *)

Section HandlerProperties.
Context `{L : GoLib}.
Variable config : AnalyzerConfig.
Variable net : Network.
Variable decodeRequest : string → option string.
Variable causeText : AnalyzeError → string.

Lemma AnalyzeURL_Error_empty ctx targetURL sched result :
  AnalyzeURL config net ctx targetURL sched = Some (inr result) →
  Error result = "".
Proof.
  unfold AnalyzeURL. rewrite AnalyzeURL_traced_spec.
  destruct (spec_normalizedAddress targetURL) as [[address u]|]; [|done].
  destruct (fetchHTML _ _ _ _) as [e|doc]; [done|]. cbv zeta.
  pose proof (analyzeDocument_address doc
                (setURL address (newResult targetURL)) u) as [_ HE].
  destruct (0 <? _)%nat.
  - destruct (checkLinksAccessibility _ _ _ _ _) as [[count checks]|];
      [|done].
    intros ?; simplify_eq. by destruct (analyzeDocument _ _ _).
  - intros ?; simplify_eq. exact HE.
Qed.

Lemma errorText_nonempty e : errorText causeText e ≠ "".
Proof. by destruct e. Qed.



(** One side of a status of [ServeAnalyze], with the request's case at
    hand. *)
Ltac status_cases :=
  repeat split; try done; eauto;
  intros;
  repeat match goal with
         | H : _ ∧ _ |- _ => destruct H
         | H : ∃ _, _ |- _ => destruct H
         | H : _ ∨ _ |- _ => destruct H
         end;
  simplify_eq; try done; try congruence; eauto 6.

(** X18. [ServeAnalyze] answers every request with one of four statuses:
    405 exactly when the method is not POST, 400 exactly when the body of
    a POST does not decode or holds no address, and otherwise, also when
    the analysis fails, 200, unless the writer refuses the body before
    the headers are out: then, and only then, the answer is the server
    error 500, as plain text.  A writer whose writes succeed gets one JSON
    document; one whose writes fail gets no body. *)
Theorem ServeAnalyze_statuses ctx sched h r w' :
  ServeAnalyze config net decodeRequest causeText ctx sched (newWriterOf h) r
  = Some w' →
  let analysed :=
    ReqMethod r = "POST"
    ∧ ∃ url, decodeRequest (ReqBody r) = Some url ∧ url ≠ "" in
  ∃ code headers,
    sent w' = Some (code, headers)
    ∧ (code = 405%Z ↔ ReqMethod r ≠ "POST")
    ∧ (code = 400%Z
       ↔ ReqMethod r = "POST"
         ∧ (decodeRequest (ReqBody r) = None
            ∨ decodeRequest (ReqBody r) = Some ""))
    ∧ (code = 200%Z ↔ analysed ∧ h ≠ FailsBeforeHeader)
    ∧ (code = 500%Z ↔ analysed ∧ h = FailsBeforeHeader)
    ∧ headers !! "Content-Type"
      = Some (if (code =? 500)%Z then "text/plain; charset=utf-8"
              else "application/json")
    ∧ (h = Healthy → ∃ payload, written w' = [payload])
    ∧ (h ≠ Healthy → written w' = [])
    ∧ getStatusClass code
      = (if (code =? 500)%Z then "server_error"
         else if (code =? 200)%Z then "success"
         else "client_error").
Proof.
  cbv zeta.
  unfold ServeAnalyze, writeErrorResponse, http_Error, Write, WriteHeader.
  simpl.
  destruct (String.eqb_spec (ReqMethod r) "POST") as [HM|HM]; simpl.
  - destruct (decodeRequest (ReqBody r)) as [url|] eqn:Hdec.
    + destruct (String.eqb_spec url "") as [->|Hurl].
      * destruct h; simpl; intros ?; simplify_eq/=; exists 400%Z; eexists;
          (split; [done|]); status_cases.
      * destruct (AnalyzeURL _ _ _ _ _) as [outcome|]; [|done].
        destruct h; simpl; intros ?; simplify_eq/=; eexists _, _;
          (split; [done|]); status_cases.
    + destruct h; simpl; intros ?; simplify_eq/=; exists 400%Z; eexists;
        (split; [done|]); status_cases.
  - destruct h; simpl; intros ?; simplify_eq/=; exists 405%Z; eexists;
      (split; [done|]); status_cases.
Qed.

(** X19. The answer to a request that is analysed tells whether the
    analysis failed: it is the result of [AnalyzeURL], whose [Error] field
    is empty, or it holds the address as the client sent it, before any
    normalisation, with the text of the error, which is never empty. *)
Theorem ServeAnalyze_reports_failure ctx sched r url w' :
  ReqMethod r = "POST" →
  decodeRequest (ReqBody r) = Some url →
  url ≠ "" →
  ServeAnalyze config net decodeRequest causeText ctx sched newWriter r
  = Some w' →
  (∃ result,
     AnalyzeURL config net ctx url sched = Some (inr result)
     ∧ written w' = [ResultJSON result]
     ∧ Error result = "")
  ∨ (∃ err,
       AnalyzeURL config net ctx url sched = Some (inl err)
       ∧ written w' = [FailureJSON url (errorText causeText err)]
       ∧ errorText causeText err ≠ "").
Proof.
  intros HM Hdec Hurl. unfold ServeAnalyze.
  rewrite HM, Hdec. simpl.
  apply String.eqb_neq in Hurl. rewrite Hurl.
  destruct (AnalyzeURL _ _ _ _ _) as [[err|result]|] eqn:Hrun; [| |done].
  - intros ?; simplify_eq. right. exists err.
    split; [done|]. split; [done|]. apply errorText_nonempty.
  - intros ?; simplify_eq. left. exists result.
    split; [done|]. split; [done|]. by eapply AnalyzeURL_Error_empty.
Qed.


End HandlerProperties.

Lemma ServeAnalyze_statuses_witness :
  let r := mkRequest "POST" "/api/v1/analyze" "://no-scheme" in
  let w' :=
    http_Error
      (Header_Set "Content-Type" "application/json"
                  (newWriterOf FailsBeforeHeader))
      "Internal server error" 500 in
  ServeAnalyze (L:=Samples.webLib) Samples.config Samples.web
    Deployment.plainBody Deployment.causeText false []
    (newWriterOf FailsBeforeHeader) r
  = Some w'
  ∧ ∃ code headers, sent w' = Some (code, headers) ∧ code = 500%Z.
Proof.
  intros r w'.
  assert (ServeAnalyze (L:=Samples.webLib) Samples.config Samples.web
            Deployment.plainBody Deployment.causeText false []
            (newWriterOf FailsBeforeHeader) r
          = Some w') as Hrun by (vm_compute; reflexivity).
  split; [exact Hrun|].
  destruct (ServeAnalyze_statuses (L:=Samples.webLib) Samples.config
              Samples.web Deployment.plainBody Deployment.causeText false []
              FailsBeforeHeader r w' Hrun)
    as (code & headers & Hsent & _ & _ & _ & H500 & _).
  exists code, headers. split; [exact Hsent|]. apply H500.
  split; [|done]. split; [done|]. by exists "://no-scheme".
Defined.

Lemma ServeAnalyze_reports_failure_witness :
  let r := mkRequest "POST" "/api/v1/analyze" "://no-scheme" in
  ∃ w',
    ServeAnalyze (L:=Samples.webLib) Samples.config Samples.web
      Deployment.plainBody Deployment.causeText false [] newWriter r
    = Some w'
    ∧ ((∃ result,
          AnalyzeURL (L:=Samples.webLib) Samples.config Samples.web false
            "://no-scheme" [] = Some (inr result)
          ∧ written w' = [ResultJSON result]
          ∧ Error result = "")
       ∨ (∃ err,
            AnalyzeURL (L:=Samples.webLib) Samples.config Samples.web false
              "://no-scheme" [] = Some (inl err)
            ∧ written w'
              = [FailureJSON "://no-scheme"
                   (errorText Deployment.causeText err)]
            ∧ errorText Deployment.causeText err ≠ "")).
Proof.
  intros r. eexists. split; [vm_compute; reflexivity|].
  apply (ServeAnalyze_reports_failure (L:=Samples.webLib) Samples.config
           Samples.web Deployment.plainBody Deployment.causeText false [] r
           "://no-scheme").
  - reflexivity.
  - reflexivity.
  - done.
  - vm_compute. reflexivity.
Defined.

